(* ===================================================================== *)
(* dataview_converter.py: a shallow embedding and its verified properties *)
(* ===================================================================== *)
(* The development follows src/dataview_converter.py function by function.

   Modelling conventions
   - A Python str is a list of 8-bit characters, read as the code points
     U+0000..U+00FF.  Character classes (white space, line boundaries,
     regex word characters, case mapping) are those of Python 3 on that
     range.
   - Library code that is not part of the repository (pathlib, the file
     system, yaml.safe_load, the builtin str()) is an interface: the type
     classes PathLib, FileSystem and Runtime below.  The calls that look
     at the file system may raise: exists() and is_dir() on a path that
     cannot be examined (a name that is too long), read_text() on a
     directory, on a file that is not UTF-8 or on a path that is gone.  A
     write that fails is not modelled: write_text and copy2 are total.
   - An exception is the outcome Raise; which Python exception it is, is
     said in a comment at the place it is raised.
   - The logger and the files written are effects: they are recorded, in
     order, in a trace of io_action values. *)

From Stdlib Require Import Ascii String DecimalString.
From stdpp Require Import base option list gmap strings.

Set Default Proof Using "Type".
Set Warnings "-register-all".

(* ===================================================================== *)
(* 1. Strings                                                             *)
(* ===================================================================== *)

Definition str := list ascii.

Definition lit (s : string) : str := list_ascii_of_string s.
Arguments lit s%_string.

Definition code (c : ascii) : nat := nat_of_ascii c.

Definition in_range (lo hi n : nat) : bool := (lo <=? n) && (n <=? hi).

(* str.isspace on one character: \t \n \v \f \r, \x1c..\x1f, space,
   \x85 and \xa0. *)
Definition is_space (c : ascii) : bool :=
  let n := code c in
  in_range 9 13 n || in_range 28 32 n || (n =? 133) || (n =? 160).

(* The line boundaries of str.splitlines. *)
Definition is_linebreak (c : ascii) : bool :=
  let n := code c in
  in_range 10 13 n || in_range 28 30 n || (n =? 133).

(* The regex class \w of a str pattern: alphanumeric or underscore. *)
Definition is_word (c : ascii) : bool :=
  let n := code c in
  in_range 48 57 n || in_range 65 90 n || in_range 97 122 n || (n =? 95)
  || (n =? 170) || (n =? 178) || (n =? 179) || (n =? 181)
  || in_range 185 186 n || in_range 188 190 n
  || in_range 192 214 n || in_range 216 246 n || in_range 248 255 n.

(* str.lower, one character. *)
Definition lower_char (c : ascii) : ascii :=
  let n := code c in
  if in_range 65 90 n || in_range 192 214 n || in_range 216 222 n
  then ascii_of_nat (n + 32) else c.

(* str.upper, one character.  The upper case of sharp s is two letters;
   micro sign and y-diaeresis, whose upper case lies beyond U+00FF, stay
   in place (neither they nor their images are ASCII letters). *)
Definition upper_char (c : ascii) : str :=
  let n := code c in
  if in_range 97 122 n || in_range 224 246 n || in_range 248 254 n
  then [ascii_of_nat (n - 32)]
  else if n =? 223 then lit "SS" else [c].

Definition lower (s : str) : str := map lower_char s.
Definition upper (s : str) : str := flat_map upper_char s.

Definition eqc (a b : ascii) : bool := Ascii.eqb a b.

(* Equality of characters under re.IGNORECASE. *)
Definition ieqc (a b : ascii) : bool := eqc (lower_char a) (lower_char b).

Fixpoint starts_with_by (eq : ascii -> ascii -> bool) (p s : str) : bool :=
  match p, s with
  | [], _ => true
  | _ :: _, [] => false
  | a :: p', b :: s' => eq a b && starts_with_by eq p' s'
  end.

(* s.startswith(p) *)
Definition startswith (p s : str) : bool := starts_with_by eqc p s.
(* the literal p matches at the head of s under re.IGNORECASE *)
Definition istartswith (p s : str) : bool := starts_with_by ieqc p s.

Definition str_eqb (a b : str) : bool := bool_decide (a = b).

(* str.partition restricted to its success case: the text before and after
   the first occurrence of sep. *)
Fixpoint partition (sep s : str) : option (str * str) :=
  if startswith sep s then Some ([], drop (length sep) s)
  else match s with
       | [] => None
       | c :: s' =>
           match partition sep s' with
           | Some (a, b) => Some (c :: a, b)
           | None => None
           end
       end.

(* sep in s *)
Definition contains (sep s : str) : bool :=
  match partition sep s with Some _ => true | None => false end.

Fixpoint lstrip_by (f : ascii -> bool) (s : str) : str :=
  match s with
  | c :: s' => if f c then lstrip_by f s' else s
  | [] => []
  end.

Definition rstrip_by (f : ascii -> bool) (s : str) : str :=
  rev (lstrip_by f (rev s)).

Definition strip_by (f : ascii -> bool) (s : str) : str :=
  rstrip_by f (lstrip_by f s).

(* s.strip() *)
Definition strip (s : str) : str := strip_by is_space s.

(* s.strip(ch) for a one-character argument *)
Definition strip_char (ch : ascii) (s : str) : str := strip_by (eqc ch) s.

Definition dquote : ascii := "034".
Definition squote : ascii := "039".

(* s.strip() followed by .strip of the double quote and .strip of the single
   quote *)
Definition strip_quotes (s : str) : str :=
  strip_char squote (strip_char dquote (strip s)).

(* s.splitlines(): cur holds the current line, reversed. *)
Fixpoint splitlines_from (cur s : str) : list str :=
  match s with
  | [] => match cur with [] => [] | _ => [rev cur] end
  | c :: rest =>
      if is_linebreak c then
        rev cur ::
          (if eqc c "013" then
             match rest with
             | d :: rest' =>
                 if eqc d "010" then splitlines_from [] rest'
                 else splitlines_from [] rest
             | [] => splitlines_from [] rest
             end
           else splitlines_from [] rest)
      else splitlines_from (c :: cur) rest
  end.

Definition splitlines (s : str) : list str := splitlines_from [] s.

(* s.split(ch) for a one-character separator *)
Fixpoint split_from (ch : ascii) (cur s : str) : list str :=
  match s with
  | [] => [rev cur]
  | c :: rest =>
      if eqc c ch then rev cur :: split_from ch [] rest
      else split_from ch (c :: cur) rest
  end.

Definition split (ch : ascii) (s : str) : list str := split_from ch [] s.

(* sep.join(parts) *)
Fixpoint join (sep : str) (parts : list str) : str :=
  match parts with
  | [] => []
  | [p] => p
  | p :: rest => p ++ sep ++ join sep rest
  end.

(* s.replace(ch, new) for a one-character pattern *)
Definition replace (ch : ascii) (new : str) (s : str) : str :=
  flat_map (fun c => if eqc c ch then new else [c]) s.

(* ===================================================================== *)
(* 2. Regular expressions                                                 *)
(* ===================================================================== *)

(* --- DATABLOCK_RE = re.compile(r"```dataview(.*?)```", DOTALL|IGNORECASE) *)

Definition fence : str := lit "```".
Definition opening : str := lit "```dataview".

(* A match: group(0) = opener ++ inner ++ fence and group(1) = inner.  The
   opener is the matched spelling of the opening, in the text's own case. *)
Record re_match := Match { opener : str; inner : str }.

Definition group0 (m : re_match) : str := opener m ++ inner m ++ fence.
Definition group1 (m : re_match) : str := inner m.

(* DATABLOCK_RE.match at the head of s: the opening, then the shortest
   text that is followed by a closing fence. *)
Definition match_here (s : str) : option re_match :=
  if istartswith opening s then
    match partition fence (drop (length opening) s) with
    | Some (g, _) => Some (Match (take (length opening) s) g)
    | None => None
    end
  else None.

(* The text as re.sub sees it: the characters outside any match, and the
   non-overlapping matches from left to right. *)
Inductive segment := Lit (c : ascii) | Block (m : re_match).

(* skip counts the characters of the current match still to pass. *)
Fixpoint scan_from (skip : nat) (s : str) : list segment :=
  match s with
  | [] => []
  | c :: rest =>
      match skip with
      | S k => scan_from k rest
      | O =>
          match match_here s with
          | Some m => Block m :: scan_from (length (group0 m) - 1) rest
          | None => Lit c :: scan_from 0 rest
          end
      end
  end.

Definition scan (s : str) : list segment := scan_from 0 s.

(* --- re.split(r"\bKW1\b|\bKW2\b|...", s, flags=re.IGNORECASE) *)

Definition is_word_opt (c : option ascii) : bool :=
  match c with Some c => is_word c | None => false end.

(* \bkw\b matches at the head of s, prev being the character before it.
   Every keyword used is made of letters, so \b holds where the neighbour is
   not a word character or is missing. *)
Definition keyword_here (kw : str) (prev : option ascii) (s : str) : bool :=
  negb (is_word_opt prev) && istartswith kw s
  && negb (is_word_opt (head (drop (length kw) s))).

(* The alternatives are tried in order at each position. *)
Fixpoint first_keyword (kws : list str) (prev : option ascii) (s : str)
  : option str :=
  match kws with
  | [] => None
  | kw :: kws' =>
      if keyword_here kw prev s then Some kw else first_keyword kws' prev s
  end.

Fixpoint re_split_from (kws : list str) (prev : option ascii) (skip : nat)
    (cur s : str) : list str :=
  match s with
  | [] => [rev cur]
  | c :: rest =>
      match skip with
      | S k => re_split_from kws (Some c) k cur rest
      | O =>
          match first_keyword kws prev s with
          | Some kw =>
              rev cur :: re_split_from kws (Some c) (length kw - 1) [] rest
          | None => re_split_from kws (Some c) 0 (c :: cur) rest
          end
      end
  end.

Definition re_split (kws : list str) (s : str) : list str :=
  re_split_from kws None 0 [] s.

Definition FROM : list str := [lit "FROM"].
Definition WHERE_SORT : list str := [lit "WHERE"; lit "SORT"].

(* ===================================================================== *)
(* 3. Python values and exceptions                                        *)
(* ===================================================================== *)

(* What yaml.safe_load can build.  A dict is its list of items, keys
   pairwise distinct; POther stands for the objects that hold no str and
   have no get (float, date, datetime, bytes) and carries their truth
   value. *)
Inductive pyval :=
| PNone
| PBool (b : bool)
| PInt (n : Z)
| PStr (s : str)
| PList (xs : list pyval)
| PSet (xs : list pyval)
| PDict (kvs : list (pyval * pyval))
| POther (truth : bool).

Definition nonempty {A} (l : list A) : bool :=
  match l with [] => false | _ => true end.

(* bool(v) *)
Definition truthy (v : pyval) : bool :=
  match v with
  | PNone => false
  | PBool b => b
  | PInt n => negb (n =? 0)%Z
  | PStr s => nonempty s
  | PList xs | PSet xs => nonempty xs
  | PDict kvs => nonempty kvs
  | POther t => t
  end.

(* v == s for a str s *)
Definition is_str (s : str) (v : pyval) : bool :=
  match v with PStr t => str_eqb t s | _ => false end.

(* d[key] on the items of a dict, for a str key *)
Fixpoint dict_lookup (key : str) (kvs : list (pyval * pyval)) : option pyval :=
  match kvs with
  | [] => None
  | (k, v) :: rest => if is_str key k then Some v else dict_lookup key rest
  end.

(* The outcome of an expression that may raise. *)
Inductive result (A : Type) := Return (a : A) | Raise.
Arguments Return {A} a.
Arguments Raise {A}.

#[export] Instance result_ret : MRet result := @Return.
#[export] Instance result_bind : MBind result := fun A B f r =>
  match r with Return a => f a | Raise => Raise end.
#[export] Instance result_fmap : FMap result := fun A B f r =>
  match r with Return a => Return (f a) | Raise => Raise end.

(* key in v *)
Definition py_in (key : str) (v : pyval) : result bool :=
  match v with
  | PDict kvs =>
      Return (match dict_lookup key kvs with Some _ => true | None => false end)
  | PStr s => Return (contains key s)
  | PList xs | PSet xs => Return (existsb (is_str key) xs)
  | PNone | PBool _ | PInt _ | POther _ => Raise   (* TypeError *)
  end.

(* v.get(key) *)
Definition py_get (v : pyval) (key : str) : result pyval :=
  match v with
  | PDict kvs => Return (default PNone (dict_lookup key kvs))
  | _ => Raise                                      (* AttributeError *)
  end.

(* v[key] for a str key *)
Definition py_getitem (v : pyval) (key : str) : result pyval :=
  match v with
  | PDict kvs =>
      match dict_lookup key kvs with
      | Some x => Return x
      | None => Raise                               (* KeyError *)
      end
  | _ => Raise                                      (* TypeError *)
  end.

(* val.replace("|", "\\|"): only a str has this method with these
   arguments. *)
Definition py_replace_pipe (v : pyval) : result str :=
  match v with
  | PStr s => Return (replace "|" (lit "\|") s)
  | _ => Raise                          (* AttributeError or TypeError *)
  end.

(* ===================================================================== *)
(* 4. The libraries the converter calls                                   *)
(* ===================================================================== *)

(* pathlib.Path, without the file system. *)
Class PathLib (Path : Type) := {
  joinpath : Path -> str -> Path;             (* root / name *)
  stem : Path -> str;                         (* p.stem *)
  relative_to : Path -> Path -> result str;   (* str(p.relative_to(root)),
                                                 ValueError when p is not
                                                 under root *)
  with_suffix_bak : Path -> Path;   (* p.with_suffix(p.suffix + ".bak") *)
}.

(* The file system, as a value FS; the two writers return the next one. *)
(* p.exists() and p.is_dir() answer False when the path is missing and
   hand on any other OSError of stat (ENAMETOOLONG, EACCES).  p.read_text
   raises IsADirectoryError on a directory, which the glob lists when its
   name ends in .md, UnicodeDecodeError on bytes that are not UTF-8, and
   OSError. *)
Class FileSystem (Path FS : Type) := {
  exists_ : FS -> Path -> result bool;        (* p.exists() *)
  is_dir : FS -> Path -> result bool;         (* p.is_dir() *)
  rglob_md : FS -> Path -> list Path;         (* list(p.rglob("*.md")) *)
  read_text : FS -> Path -> result str;       (* p.read_text("utf-8") *)
  write_text : FS -> Path -> str -> FS;       (* p.write_text(s, "utf-8") *)
  copy2 : FS -> Path -> Path -> FS;           (* shutil.copy2(src, dst) *)
}.

(* yaml.safe_load (None when it raises) and the builtin str(). *)
Class Runtime := {
  safe_load : str -> option pyval;
  py_str : pyval -> str;
  py_str_PStr : forall s, py_str (PStr s) = s;
}.

(* ===================================================================== *)
(* 5. The converter                                                       *)
(* ===================================================================== *)

Definition nl : str := ["010"%char].

(* One table line: "| " + " | ".join(cells) + " |" *)
Definition pipe_row (cells : list str) : str :=
  lit "| " ++ join (lit " | ") cells ++ lit " |".

(* _render_md_table *)
Definition _render_md_table (headers : list str) (rows : list (list str))
  : str :=
  let hdr := pipe_row headers in
  let sep := pipe_row (replicate (length headers) (lit "---")) in
  let body := join nl (map pipe_row rows) in
  nl ++ hdr ++ nl ++ sep ++ nl ++ body ++ nl.

(* _render_md_list *)
Definition _render_md_list (items : list str) : str :=
  nl ++ join nl (map (fun it => lit "- " ++ it) items) ++ nl.

(* What the logger is called with, one constructor per message. *)
Inductive log_event (Path : Type) :=
| LogFound (n : nat) (vault_root : Path)
| LogConvertedTable (from_path : option str) (fp : Path)
| LogConvertedList (from_path : option str) (fp : Path)
| LogSkipped (fp : Path)
| LogBackup (bak : Path)
| LogUpdated (fp : Path).
Arguments LogFound {Path}.
Arguments LogConvertedTable {Path}.
Arguments LogConvertedList {Path}.
Arguments LogSkipped {Path}.
Arguments LogBackup {Path}.
Arguments LogUpdated {Path}.

(* The effects of a run, in the order they happen. *)
Inductive io_action (Path : Type) :=
| Logged (e : log_event Path)
| Copied (src dst : Path)
| Written (p : Path) (content : str).
Arguments Logged {Path}.
Arguments Copied {Path}.
Arguments Written {Path}.

(* The variables _process_block shares with its caller: the nonlocal flag
   and what was output so far. *)
Record pstate (Path : Type) := PState {
  changed : bool;
  trace : list (io_action Path);
}.
Arguments PState {Path}.
Arguments changed {Path}.
Arguments trace {Path}.

(* A computation over pstate that may raise; the state reached is kept in
   both cases. *)
Definition M (Path A : Type) : Type := pstate Path -> result A * pstate Path.

#[export] Instance M_ret Path : MRet (M Path) := fun A a st => (Return a, st).
#[export] Instance M_bind Path : MBind (M Path) := fun A B f c st =>
  match c st with
  | (Return a, st') => f a st'
  | (Raise, st') => (Raise, st')
  end.

Definition lift {Path A} (r : result A) : M Path A := fun st => (r, st).
Definition logger {Path} (e : log_event Path) : M Path unit := fun st =>
  (Return tt, PState (changed st) (trace st ++ [Logged e])).
Definition set_changed {Path} : M Path unit := fun st =>
  (Return tt, PState true (trace st)).

(* The state after a file has been, or has not been, rewritten. *)
Record world (Path FS : Type) := World {
  disk : FS;
  output : list (io_action Path);
}.
Arguments World {Path FS}.
Arguments disk {Path FS}.
Arguments output {Path FS}.

Section Converter.
Context {Path FS : Type} `{!PathLib Path, !FileSystem Path FS, !Runtime}.

(* _extract_frontmatter *)
Definition _extract_frontmatter (text : str) : pyval :=
  if startswith (lit "---") text then
    (* parts = text.split("---", 2); len(parts) >= 3 *)
    match partition (lit "---") (drop 3 text) with
    | Some (parts1, _) =>
        match safe_load parts1 with
        | Some data => if truthy data then data else PDict []
        | None => PDict []
        end
    | None => PDict []
    end
  else PDict [].

(* _extract_inline_kv *)
Definition _extract_inline_kv (text : str) : gmap str str :=
  foldl (fun res line =>
           match partition (lit "::") line with
           | Some (key, val) => <[strip key := strip val]> res
           | None => res
           end)
        ∅ (splitlines text).

(* The directory _gather_files globs. *)
Definition gather_base (fs : FS) (vault_root : Path)
    (from_path : option str) : result Path :=
  match from_path with
  | Some from_path =>
      if nonempty from_path then
        let from_path := strip_quotes from_path in
        let target := joinpath vault_root from_path in
        (* target.exists() and target.is_dir() *)
        e ← exists_ fs target;
        d ← (if e : bool then is_dir fs target else Return false);
        if d : bool then Return target
        else
          let candidate := joinpath vault_root from_path in
          e ← exists_ fs candidate;
          Return (if e : bool then candidate else vault_root)
      else Return vault_root
  | None => Return vault_root
  end.

(* _gather_files *)
Definition _gather_files (fs : FS) (vault_root : Path)
    (from_path : option str) : result (list Path) :=
  base ← gather_base fs vault_root from_path;
  Return (rglob_md fs base).

Definition one_of (names : list string) (s : str) : bool :=
  existsb (fun n => str_eqb s (lit n)) names.

(* _value_for_column *)
Definition _value_for_column (md_text col : str)
    (file_path vault_root : Path) : result pyval :=
  let col := strip col in
  if one_of ["file.name"; "file"]%string (lower col) then
    Return (PStr (stem file_path))
  else if one_of ["file.path"; "path"]%string (lower col) then
    PStr <$> relative_to file_path vault_root
  else
    let fm := _extract_frontmatter md_text in
    let inline := _extract_inline_kv md_text in
    in_fm ← py_in col fm;
    if in_fm : bool then
      v ← py_get fm col; Return (PStr (py_str v))
    else
      match inline !! col with
      | Some v => Return (PStr v)
      | None =>
          if one_of ["title"; "name"]%string (lower col) then
            title_in_fm ← py_in (lit "title") fm;
            if title_in_fm : bool then py_getitem fm (lit "title")
            else Return (PStr (stem file_path))
          else Return (PStr [])
      end.

(* The parsing steps of _process_block. *)

(* cols, from parts[0] of the split at FROM *)
Definition table_columns (parts : list str) : list str :=
  let cols_part := strip (drop 5 (strip (hd [] parts))) in
  filter (fun c => nonempty c = true) (map strip (split "," cols_part)).

(* from_path, from parts[1] when there is one *)
Definition from_clause (parts : list str) : option str :=
  match parts with
  | _ :: parts1 :: _ =>
      let right := strip parts1 in
      let right := strip (hd [] (re_split WHERE_SORT right)) in
      Some (strip_quotes right)
  | _ => None
  end.

(* One row of the table: a cell per column. *)
Definition table_row (fs : FS) (vault : Path) (cols : list str) (f : Path)
  : result (list str) :=
  ftext ← read_text fs f;
  mapM (fun col =>
          val ← _value_for_column ftext col f vault;
          val ← py_replace_pipe val;
          (* row.append(val or "") *)
          Return (if nonempty val then val else []))
       cols.

(* One item of the list. *)
Definition list_item (fs : FS) (vault : Path) (f : Path) : result str :=
  ftext ← read_text fs f;
  v ← _value_for_column ftext (lit "title") f vault;
  (* title = v or f.stem, then formatted into the f-string *)
  let title := if truthy v then py_str v else stem f in
  rel ← relative_to f vault;
  Return (lit "[" ++ title ++ lit "](" ++ rel ++ lit ")").

(* _process_block, the closure of convert_dataview_in_vault over vault,
   fp, logger and changed. *)
Definition _process_block (fs : FS) (vault fp : Path) (m : re_match)
  : M Path str :=
  let block := strip (group1 m) in
  match splitlines block with
  | [] => mret (group0 m)
  | line0 :: _ =>
      let first := strip line0 in
      if startswith (lit "TABLE") (upper first) then
        let parts := re_split FROM first in
        let cols := table_columns parts in
        let from_path := from_clause parts in
        files ← lift (_gather_files fs vault from_path);
        rows ← lift (mapM (table_row fs vault cols) files);
        if nonempty cols then
          let md_table := _render_md_table cols rows in
          set_changed;;
          logger (LogConvertedTable from_path fp);;
          mret md_table
        else mret (group0 m)
      else if startswith (lit "LIST") (upper first) then
        let parts := re_split FROM first in
        let from_path := from_clause parts in
        files ← lift (_gather_files fs vault from_path);
        items ← lift (mapM (list_item fs vault) files);
        let md_list := _render_md_list items in
        set_changed;;
        logger (LogConvertedList from_path fp);;
        mret md_list
      else
        logger (LogSkipped fp);;
        mret (group0 m)
  end.

(* DATABLOCK_RE.sub(repl, text) on the scanned text *)
Fixpoint sub_segments (repl : re_match -> M Path str) (segs : list segment)
  : M Path str :=
  match segs with
  | [] => mret []
  | Lit c :: rest => out ← sub_segments repl rest; mret (c :: out)
  | Block m :: rest =>
      r ← repl m; out ← sub_segments repl rest; mret (r ++ out)
  end.

Definition re_sub (repl : re_match -> M Path str) (text : str)
  : M Path str :=
  sub_segments repl (scan text).

(* The body of the loop over md_files. *)
Definition convert_file (vault : Path) (backup : bool) (fp : Path)
    (w : world Path FS) : result unit * world Path FS :=
  match read_text (disk w) fp with
  | Raise => (Raise, w)
  | Return text =>
      match re_sub (_process_block (disk w) vault fp) text
                   (PState false (output w)) with
      | (Raise, st) => (Raise, World (disk w) (trace st))
      | (Return new_text, st) =>
          if changed st then
            let w1 :=
              if backup then
                let bak := with_suffix_bak fp in
                World (copy2 (disk w) fp bak)
                      (trace st ++ [Copied fp bak; Logged (LogBackup bak)])
              else World (disk w) (trace st) in
            (Return tt,
             World (write_text (disk w1) fp new_text)
                   (output w1
                    ++ [Written fp new_text; Logged (LogUpdated fp)]))
          else (Return tt, World (disk w) (trace st))
      end
  end.

(* for fp in md_files: ... *)
Fixpoint convert_files (vault : Path) (backup : bool) (md_files : list Path)
    (w : world Path FS) : result unit * world Path FS :=
  match md_files with
  | [] => (Return tt, w)
  | fp :: rest =>
      match convert_file vault backup fp w with
      | (Return _, w') => convert_files vault backup rest w'
      | (Raise, w') => (Raise, w')
      end
  end.

(* convert_dataview_in_vault; vault is Path(vault_root).  The returned
   message is a constant and is left out. *)
Definition convert_dataview_in_vault (vault : Path) (backup : bool)
    (fs : FS) : result unit * world Path FS :=
  match exists_ fs vault with
  | Return true =>
      let md_files := rglob_md fs vault in
      convert_files vault backup md_files
        (World fs [Logged (LogFound (length md_files) vault)])
  | Return false => (Raise, World fs [])        (* FileNotFoundError *)
  | Raise => (Raise, World fs [])               (* OSError of exists() *)
  end.

End Converter.

(* ===================================================================== *)
(* 6. Notions used in the statements                                      *)
(* ===================================================================== *)

(* The block takes a rendering path of _process_block: a TABLE line with at
   least one column, or a LIST line. *)
Definition renders (m : re_match) : bool :=
  match splitlines (strip (group1 m)) with
  | [] => false
  | line0 :: _ =>
      let first := strip line0 in
      if startswith (lit "TABLE") (upper first) then
        nonempty (table_columns (re_split FROM first))
      else startswith (lit "LIST") (upper first)
  end.

(* The block takes a path of _process_block on which files are gathered
   and read: its first line is a TABLE line or a LIST line. *)
Definition reads_files (m : re_match) : bool :=
  match splitlines (strip (group1 m)) with
  | [] => false
  | line0 :: _ =>
      let first := strip line0 in
      startswith (lit "TABLE") (upper first)
      || startswith (lit "LIST") (upper first)
  end.

(* The matches of a scanned text, from left to right. *)
Definition blocks (segs : list segment) : list re_match :=
  omap (fun s => match s with Block m => Some m | Lit _ => None end) segs.

(* The text of a scanned document once f has been applied to its blocks. *)
Definition seg_text (f : re_match -> str) (seg : segment) : str :=
  match seg with Lit c => [c] | Block m => f m end.

Definition render (f : re_match -> str) (segs : list segment) : str :=
  flat_map (seg_text f) segs.

(* The number of pipe characters that no backslash precedes. *)
Fixpoint unescaped_pipes_after (escaped : bool) (s : str) : nat :=
  match s with
  | [] => 0
  | c :: rest =>
      (if eqc c "|" && negb escaped then 1 else 0)
      + unescaped_pipes_after (eqc c "\") rest
  end.

Definition unescaped_pipes (s : str) : nat := unescaped_pipes_after false s.

(* A cell in which every pipe follows a backslash, whatever precedes the
   cell. *)
Definition pipe_safe (cell : str) : Prop :=
  forall b, unescaped_pipes_after b cell = 0.

(* No closing fence occurs in s. *)
Definition fence_free (s : str) : Prop := partition fence s = None.



(* The scan of a text in which the blocks that kept says so stand as they
   were and each other block gave way to the characters of g. *)
Definition relabel (kept : re_match -> bool) (g : re_match -> str)
    (segs : list segment) : list segment :=
  flat_map (fun seg =>
              match seg with
              | Lit c => [Lit c]
              | Block m => if kept m then [Block m] else map Lit (g m)
              end)
           segs.



Definition is_log {Path} (a : io_action Path) : Prop :=
  match a with Logged _ => True | _ => False end.

Section Orders.
Context {Path : Type}.

(* _process_block run on a fresh state: its result, and what it does to
   the flag and to the log. *)
Definition block_run (repl : re_match -> M Path str) (m : re_match)
  : result str * pstate Path :=
  repl m (PState false []).

(* What the replacement function returns for a block; a block on which it
   raises is left as it stands. *)
Definition returned (repl : re_match -> M Path str) (m : re_match) : str :=
  match (block_run repl m).1 with
  | Return r => r
  | Raise => group0 m
  end.

(* The replacement function called on the blocks in a given order of
   their indices; res collects what it returned for each. *)
Fixpoint run_in_order (repl : re_match -> M Path str) (bs : list re_match)
    (order : list nat) (res : gmap nat str) : M Path (gmap nat str) :=
  match order with
  | [] => mret res
  | i :: order' =>
      match bs !! i with
      | Some m => r ← repl m; run_in_order repl bs order' (<[i := r]> res)
      | None => run_in_order repl bs order' res
      end
  end.

(* The text with block number i + k replaced by res !! (i + k), for the
   k-th block of segs. *)
Fixpoint splice (res : gmap nat str) (i : nat) (segs : list segment) : str :=
  match segs with
  | [] => []
  | Lit c :: rest => c :: splice res i rest
  | Block m :: rest =>
      default (group0 m) (res !! i) ++ splice res (S i) rest
  end.

(* Substitution with the blocks processed in the given order. *)
Definition sub_in_order (repl : re_match -> M Path str) (text : str)
    (order : list nat) : M Path str :=
  res ← run_in_order repl (blocks (scan text)) order ∅;
  mret (splice res 0 (scan text)).

(* repl returns the same in every state, and all it does to the state is
   to raise the flag or not and to append its messages. *)
Definition framed (repl : re_match -> M Path str) : Prop :=
  forall m st,
    repl m st
    = ((block_run repl m).1,
       PState (changed st || changed (block_run repl m).2)
              (trace st ++ trace (block_run repl m).2)).

(* repl does not raise on m. *)
Definition returns (repl : re_match -> M Path str) (m : re_match) : Prop :=
  exists r, (block_run repl m).1 = Return r.

(* Some block of bs raises the flag. *)
Definition flags (repl : re_match -> M Path str) (bs : list re_match)
  : bool :=
  existsb (fun m => changed (block_run repl m).2) bs.

(* The messages of the blocks of bs. *)
Definition logs (repl : re_match -> M Path str) (bs : list re_match)
  : list (io_action Path) :=
  flat_map (fun m => trace (block_run repl m).2) bs.

(* The blocks an order of indices names. *)
Definition picked (bs : list re_match) (order : list nat) : list re_match :=
  omap (fun i => bs !! i) order.

(* The results recorded after the blocks were called in the given
   order. *)
Definition recorded (repl : re_match -> M Path str) (bs : list re_match)
    (order : list nat) (res : gmap nat str) : gmap nat str :=
  foldl (fun acc i =>
           match bs !! i with
           | Some m => <[i := returned repl m]> acc
           | None => acc
           end)
        res order.

End Orders.

(* The key and value of each line of a text that holds the separator "::",
   in the order of the lines. *)
Definition inline_pairs (text : str) : list (str * str) :=
  omap (fun line =>
          match partition (lit "::") line with
          | Some (key, val) => Some (strip key, strip val)
          | None => None
          end)
       (splitlines text).

(* A column name as the parser leaves it: not empty, trimmed, without
   comma. *)
Definition clean_column (c : str) : Prop :=
  c <> [] /\ strip c = c /\ ~ In ","%char c.

(* A match as DATABLOCK_RE finds it: the opening in some letter case, and a
   body whose first closing fence is the one that ends it. *)
Definition well_matched (m : re_match) : Prop :=
  istartswith opening (opener m) = true
  /\ length (opener m) = length opening
  /\ partition fence (inner m ++ fence) = Some (inner m, []).

Section Effects.
Context {Path : Type} `{!PathLib Path}.

(* An effect of a run over md_files: a message, the write of one of the
   documents, or, when backup is set, the copy of one of them to its backup
   path. *)
Definition confined (backup : bool) (md_files : list Path)
    (a : io_action Path) : Prop :=
  match a with
  | Logged _ => True
  | Written p _ => In p md_files
  | Copied p q => In p md_files /\ q = with_suffix_bak p /\ backup = true
  end.

End Effects.


(* ===================================================================== *)
(* 7. A sample world                                                      *)
(* ===================================================================== *)
(* A small POSIX file system whose root directory is the vault, on which the
   converter is run on concrete inputs.  A path is the list of its
   components below the root. *)

Module Sample.

Definition spath := list str.

(* The components of a path argument: empty ones and "." are dropped, as
   pathlib does. *)
Definition components (s : str) : list str :=
  filter (fun c => nonempty c = true /\ c <> lit ".") (split "/" s).

(* root / name; an absolute name replaces the left operand. *)
Definition sjoin (p : spath) (s : str) : spath :=
  if startswith (lit "/") s then components s else p ++ components s.

Definition name (p : spath) : str := List.last p [].

(* The name without its last suffix; a leading or a trailing dot starts no
   suffix. *)
Definition sstem (p : spath) : str :=
  match partition (lit ".") (rev (name p)) with
  | Some (suffix_rev, stem_rev) =>
      if nonempty suffix_rev && nonempty stem_rev then rev stem_rev
      else name p
  | None => name p
  end.

Fixpoint strip_prefix (root p : spath) : option spath :=
  match root, p with
  | [], _ => Some p
  | r :: root', c :: p' =>
      if str_eqb r c then strip_prefix root' p' else None
  | _ :: _, [] => None
  end.

Definition srelative_to (p root : spath) : result str :=
  match strip_prefix root p with
  | Some [] => Return (lit ".")
  | Some rel => Return (join (lit "/") rel)
  | None => Raise
  end.

Definition sbak (p : spath) : spath :=
  match p with
  | [] => []
  | _ => removelast p ++ [name p ++ lit ".bak"]
  end.

#[export] Instance sample_pathlib : PathLib spath := {|
  joinpath := sjoin;
  stem := sstem;
  relative_to := srelative_to;
  with_suffix_bak := sbak;
|}.

(* The entries other than the root, in the order a directory scan lists
   them. *)
Inductive node := Dir | File (content : str).
Definition sfs := list (spath * node).

Fixpoint entry_of (fs : sfs) (p : spath) : option node :=
  match fs with
  | [] => None
  | (q, n) :: rest => if bool_decide (q = p) then Some n else entry_of rest p
  end.

Definition entry (fs : sfs) (p : spath) : option node :=
  match p with [] => Some Dir | _ => entry_of fs p end.

Definition is_Dir (n : option node) : bool :=
  match n with Some Dir => true | _ => false end.

(* The path with its ".." components followed. *)
Fixpoint resolve_from (fs : sfs) (cur : spath) (comps : list str)
  : option spath :=
  match comps with
  | [] => Some cur
  | c :: rest =>
      if str_eqb c (lit "..") then
        if is_Dir (entry fs cur) then resolve_from fs (removelast cur) rest
        else None
      else resolve_from fs (cur ++ [c]) rest
  end.

Definition lookup_path (fs : sfs) (p : spath) : option node :=
  q ← resolve_from fs [] p; entry fs q.

(* stat fails with ENAMETOOLONG on a component of more than 255
   characters; exists() and is_dir() hand that error on. *)
Definition too_long (p : spath) : bool :=
  existsb (fun c => 255 <? length c) p.

Definition is_dir_entry (fs : sfs) (p : spath) : bool :=
  is_Dir (lookup_path fs p).

Definition sexists (fs : sfs) (p : spath) : result bool :=
  if too_long p then Raise
  else Return (bool_decide (is_Some (lookup_path fs p))).

Definition sis_dir (fs : sfs) (p : spath) : result bool :=
  if too_long p then Raise else Return (is_dir_entry fs p).

Definition is_md (p : spath) : bool :=
  startswith (rev (lit ".md")) (rev (name p)).

(* Every entry below base whose name matches *.md, as a path from base. *)
Definition srglob_md (fs : sfs) (base : spath) : list spath :=
  if is_dir_entry fs base then
    match resolve_from fs [] base with
    | Some b =>
        omap (fun '(q, _) =>
                match strip_prefix b q with
                | Some (c :: rel) =>
                    if is_md q then Some (base ++ c :: rel) else None
                | _ => None
                end) fs
    | None => []
    end
  else [].

(* A directory and a missing path cannot be read. *)
Definition sread_text (fs : sfs) (p : spath) : result str :=
  match lookup_path fs p with Some (File s) => Return s | _ => Raise end.

Fixpoint set_file (fs : sfs) (q : spath) (s : str) : sfs :=
  match fs with
  | [] => [(q, File s)]
  | (q', n) :: rest =>
      if bool_decide (q' = q) then (q, File s) :: rest
      else (q', n) :: set_file rest q s
  end.

Definition swrite_text (fs : sfs) (p : spath) (s : str) : sfs :=
  match resolve_from fs [] p with
  | Some q => set_file fs q s
  | None => fs
  end.

(* A destination that is a directory receives the file under its own
   name. *)
Definition scopy2 (fs : sfs) (src dst : spath) : sfs :=
  let dst := if is_dir_entry fs dst then dst ++ [name src] else dst in
  match sread_text fs src with
  | Return s => swrite_text fs dst s
  | Raise => fs
  end.

#[export] Instance sample_fs : FileSystem spath sfs := {|
  exists_ := sexists;
  is_dir := sis_dir;
  rglob_md := srglob_md;
  read_text := sread_text;
  write_text := swrite_text;
  copy2 := scopy2;
|}.

(* Headers and what PyYAML builds for them. *)
Definition known_headers : list (str * pyval) :=
  [ (nl ++ lit "title: 2024" ++ nl,
     PDict [(PStr (lit "title"), PInt 2024)]);
    (nl ++ lit "title:" ++ nl,
     PDict [(PStr (lit "title"), PNone)]);
    (nl ++ lit "title: A" ++ nl ++ lit "tags: x|y" ++ nl,
     PDict [(PStr (lit "title"), PStr (lit "A"));
            (PStr (lit "tags"), PStr (lit "x|y"))]);
    (nl ++ lit "5" ++ nl, PInt 5);
    (nl ++ lit "- tags" ++ nl, PList [PStr (lit "tags")]) ].

(* safe_load on the headers above; any other text is refused. *)
Definition sample_load (s : str) : option pyval :=
  snd <$> find (fun kv => str_eqb (fst kv) s) known_headers.

(* str() of None, a bool, an int and a str; the samples print no other
   object. *)
Definition sample_str (v : pyval) : str :=
  match v with
  | PStr s => s
  | PNone => lit "None"
  | PBool true => lit "True"
  | PBool false => lit "False"
  | PInt n => lit (NilZero.string_of_int (Z.to_int n))
  | _ => lit "<object>"
  end.

#[export] Program Instance sample_runtime : Runtime := {|
  safe_load := sample_load;
  py_str := sample_str;
|}.
Next Obligation. reflexivity. Qed.

(* Documents and vaults. *)

(* A query block with the given lines, as it stands in a document. *)
Definition fenced (body : str) : str :=
  lit "```dataview" ++ nl ++ body ++ nl ++ fence.

(* The match of DATABLOCK_RE on fenced body. *)
Definition block_of (body : str) : re_match :=
  Match (lit "```dataview") (nl ++ body ++ nl).

Definition a_md : spath := [lit "a.md"].
Definition b_md : spath := [lit "b.md"].
Definition notes : spath := [lit "notes"].
Definition notes_b_md : spath := [lit "notes"; lit "b.md"].

Definition header_A : str :=
  lit "---" ++ nl ++ lit "title: A" ++ nl ++ lit "tags: x|y" ++ nl
  ++ lit "---" ++ nl.

Definition header_2024 : str :=
  lit "---" ++ nl ++ lit "title: 2024" ++ nl ++ lit "---" ++ nl.

Definition table_notes : str := lit "TABLE title, tags FROM 'notes'".

(* a.md and notes/b.md; the second holds a header and a TABLE block. *)
Definition vault_notes : sfs :=
  [ (a_md, File (lit "# A"));
    (notes, Dir);
    (notes_b_md, File (header_A ++ fenced table_notes)) ].



(* Two documents; the block of b.md names the file a.md as its folder. *)
Definition vault_two : sfs :=
  [ (a_md, File (lit "x"));
    (b_md, File (fenced (lit "LIST FROM 'a.md'"))) ].

(* One document with an integer title and a TABLE block over name. *)
Definition vault_year : sfs :=
  [ (a_md, File (header_2024 ++ fenced (lit "TABLE name"))) ].


(* What the TABLE block of notes/b.md is replaced by. *)
Definition table_notes_text : str :=
  nl ++ lit "| title | tags |" ++ nl ++ lit "| --- | --- |" ++ nl
  ++ lit "| A | x\|y |" ++ nl.

(* One document with two blocks. *)
Definition two_blocks : str :=
  fenced (lit "LIST") ++ lit " and " ++ fenced (lit "TABLE file.name").
Definition vault_blocks : sfs := [ (a_md, File two_blocks) ].
Definition blocks_text1 : str :=
  (nl ++ lit "- [a](a.md)" ++ nl) ++ lit " and "
  ++ (nl ++ lit "| file.name |" ++ nl ++ lit "| --- |" ++ nl ++ lit "| a |"
      ++ nl).

(* One document with a block of a kind that is not supported. *)
Definition calendar_text : str :=
  lit "intro " ++ fenced (lit "CALENDAR file.day").
Definition vault_calendar : sfs := [ (a_md, File calendar_text) ].

(* The text between the markers of header_A. *)
Definition header_A_yaml : str :=
  nl ++ lit "title: A" ++ nl ++ lit "tags: x|y" ++ nl.


(* What a LIST block over vault_notes is replaced by. *)
Definition list_notes_text : str :=
  nl ++ lit "- [a](a.md)" ++ nl ++ lit "- [A](notes/b.md)" ++ nl.


(* One document: an inline title of three backticks, and a LIST block. *)
Definition tick_text : str :=
  lit "title:: ```" ++ nl ++ fenced (lit "LIST").
Definition tick_text1 : str :=
  lit "title:: ```" ++ nl ++ nl ++ lit "- [```](a.md)" ++ nl.
Definition vault_tick : sfs := [ (a_md, File tick_text) ].

(* A name of 256 characters. *)
Definition long_name : str := repeat "a"%char 256.

(* A document with a TABLE block without columns, and a directory whose
   name ends in .md: the glob lists both. *)
Definition d_md : spath := [lit "d.md"].
Definition vault_dir : sfs :=
  [ (a_md, File (fenced (lit "TABLE"))); (d_md, Dir) ].

(* The text of notes/b.md before and after its block is rendered. *)
Definition notes_b_text : str := header_A ++ fenced table_notes.
Definition notes_b_text1 : str := header_A ++ table_notes_text.

End Sample.

(* ===================================================================== *)
(* 8. Properties                                                          *)
(* ===================================================================== *)

Section Properties.
Context {Path FS : Type} `{!PathLib Path, !FileSystem Path FS, !Runtime}.
Implicit Types (fs : FS) (vault fp : Path) (m : re_match).
Implicit Types (st : pstate Path).

(* --- mapM in the monad of results ---------------------------------- *)

Lemma mapM_Return {A B} (f : A -> result B) (g : A -> B) (l : list A) :
  (forall x, f x = Return (g x)) -> mapM f l = Return (map g l).
Proof.
  intros Hf. induction l as [|x l IH]; [reflexivity|].
  simpl. rewrite Hf. simpl. rewrite IH. reflexivity.
Qed.

Lemma mapM_Return_inv {A B} (f : A -> result B) (l : list A) (k : list B) :
  mapM f l = Return k -> Forall2 (fun x y => f x = Return y) l k.
Proof.
  revert k. induction l as [|x l IH]; intros k Hk; simpl in Hk.
  - injection Hk as <-. constructor.
  - destruct (f x) as [y|] eqn:Hx; simpl in Hk; [|discriminate].
    destruct (mapM f l) as [k'|] eqn:Hl; simpl in Hk; [|discriminate].
    injection Hk as <-. constructor; [assumption|]. apply IH. reflexivity.
Qed.

Lemma eqc_eq a b : eqc a b = true <-> a = b.
Proof. apply Ascii.eqb_eq. Qed.

(* --- Prefixes and first occurrences ---------------------------------- *)

Lemma starts_with_by_length eq p s :
  starts_with_by eq p s = true -> length p <= length s.
Proof.
  revert s. induction p as [|a p IH]; intros [|b s]; cbn; try done; [lia|].
  intros [_ Hp%IH]%andb_prop. lia.
Qed.

(* Only the first length p characters of the text are looked at. *)
Lemma starts_with_by_app eq p x y z :
  length p <= length x ->
  starts_with_by eq p (x ++ y) = starts_with_by eq p (x ++ z).
Proof.
  revert x. induction p as [|a p IH]; intros [|b x] Hlen; cbn in *;
    try done; [lia|].
  f_equal. apply IH. lia.
Qed.

Lemma startswith_eq p s :
  startswith p s = true -> s = p ++ drop (length p) s.
Proof.
  unfold startswith. revert s.
  induction p as [|a p IH]; intros [|b s]; cbn; try done.
  intros [->%eqc_eq Hp%IH]%andb_prop. by f_equal.
Qed.

Lemma startswith_app p s : startswith p (p ++ s) = true.
Proof.
  unfold startswith. induction p as [|a p IH]; [done|]. cbn.
  rewrite IH, andb_true_r. by apply eqc_eq.
Qed.

Lemma partition_Some sep s a b :
  partition sep s = Some (a, b) -> s = a ++ sep ++ b.
Proof.
  revert a. induction s as [|c s IH]; intros a; cbn [partition].
  - destruct (startswith sep []) eqn:Hp; [|done].
    intros [= <- <-]. by apply startswith_eq in Hp.
  - destruct (startswith sep (c :: s)) eqn:Hp.
    + intros [= <- <-]. by apply startswith_eq in Hp.
    + destruct (partition sep s) as [[a' b']|]; [|done].
      intros [= <- <-]. cbn. f_equal. by apply IH.
Qed.

(* An occurrence further to the right is an occurrence. *)
Lemma partition_suffix sep pre s ab :
  partition sep s = Some ab -> is_Some (partition sep (pre ++ s)).
Proof.
  intros Hs. induction pre as [|c pre [[a b] IH]]; [by eexists|].
  cbn [app partition]. destruct (startswith sep _); [by eexists|].
  rewrite IH. by eexists.
Qed.

Lemma partition_None_suffix sep pre s :
  partition sep (pre ++ s) = None -> partition sep s = None.
Proof.
  intros Hnone. destruct (partition sep s) as [ab|] eqn:Hs; [|done].
  destruct (partition_suffix sep pre s ab Hs) as [? Heq]. congruence.
Qed.

(* Where the first occurrence is does not depend on what follows it. *)
Lemma partition_first sep g r1 r2 :
  sep <> [] ->
  partition sep (g ++ sep ++ r1) = Some (g, r1) ->
  partition sep (g ++ sep ++ r2) = Some (g, r2).
Proof.
  intros Hsep. induction g as [|c g IH].
  - intros _. cbn [app].
    assert (partition sep (sep ++ r2)
            = Some ([], drop (length sep) (sep ++ r2))) as ->.
    { destruct sep; [done|]. cbn [app partition].
      change (startswith (a :: sep) (a :: sep ++ r2))
        with (startswith (a :: sep) ((a :: sep) ++ r2)).
      by rewrite startswith_app. }
    by rewrite drop_app_length.
  - assert (startswith sep (c :: g ++ sep ++ r1)
            = startswith sep (c :: g ++ sep ++ r2)) as Hsw.
    { rewrite !(app_assoc g), !app_comm_cons. apply starts_with_by_app.
      cbn. rewrite length_app. lia. }
    cbn [app partition]. rewrite Hsw.
    destruct (startswith sep (c :: g ++ sep ++ r2));
      [intros ?; simplify_eq|].
    destruct (partition sep (g ++ sep ++ r1)) as [[a b]|] eqn:Hg; [|done].
    intros [= -> ->]. by rewrite IH.
Qed.

(* --- The scan of a text ---------------------------------------------- *)

Lemma match_here_Some s m :
  match_here s = Some m ->
  istartswith opening s = true
  /\ opener m = take (length opening) s
  /\ exists rest,
       partition fence (drop (length opening) s) = Some (inner m, rest)
       /\ s = group0 m ++ rest.
Proof.
  unfold match_here. destruct (istartswith opening s) eqn:Hop; [|done].
  destruct (partition fence _) as [[g rest]|] eqn:Hg; [|done].
  intros [= <-]. split; [done|]. split; [done|]. exists rest.
  split; [done|]. unfold group0. cbn [opener inner].
  apply partition_Some in Hg. rewrite <- !app_assoc, <- Hg.
  by rewrite take_drop.
Qed.

Lemma opener_length s m :
  match_here s = Some m -> length (opener m) = length opening.
Proof.
  intros (Hop & -> & _)%match_here_Some.
  apply starts_with_by_length in Hop. rewrite length_take. lia.
Qed.


Lemma scan_from_skip pre rest :
  scan_from (length pre) (pre ++ rest) = scan rest.
Proof. induction pre as [|c pre IH]; [done|]. exact IH. Qed.

Lemma scan_cons_None c s :
  match_here (c :: s) = None -> scan (c :: s) = Lit c :: scan s.
Proof. unfold scan. cbn [scan_from]. by intros ->. Qed.

Lemma scan_Some s m :
  match_here s = Some m ->
  exists c s0,
    s = c :: s0 /\ scan s = Block m :: scan_from (length (group0 m) - 1) s0.
Proof.
  destruct s as [|c s0]; [done|]. intros Hm. exists c, s0.
  split; [done|]. unfold scan. cbn [scan_from]. by rewrite Hm.
Qed.

Lemma scan_match m rest :
  match_here (group0 m ++ rest) = Some m ->
  scan (group0 m ++ rest) = Block m :: scan rest.
Proof.
  intros Hm. destruct (scan_Some _ _ Hm) as (c & s0 & Heq & ->). f_equal.
  destruct (group0 m) as [|c' g] eqn:Hg.
  { unfold group0 in Hg. by destruct (opener m), (inner m). }
  cbn in Heq. injection Heq as _ <-. cbn [length].
  rewrite Nat.sub_1_r. apply scan_from_skip.
Qed.

(* Induction along the scan: a character outside any match, or a match
   and the text after it. *)
Lemma scan_ind (P : str -> Prop) :
  P [] ->
  (forall c s, match_here (c :: s) = None -> P s -> P (c :: s)) ->
  (forall m rest, match_here (group0 m ++ rest) = Some m ->
                  P rest -> P (group0 m ++ rest)) ->
  forall s, P s.
Proof.
  intros Hnil Hlit Hblock s.
  remember (length s) as n eqn:Hn. revert s Hn.
  induction n as [n IH] using lt_wf_ind. intros [|c s] Hn; [done|].
  destruct (match_here (c :: s)) as [m|] eqn:Hm.
  - pose proof (opener_length _ _ Hm) as Hlen.
    pose proof Hm as (_ & _ & rest & _ & Heq)%match_here_Some.
    rewrite Heq in *. apply Hblock; [done|].
    eapply IH; [|done]. subst n. unfold group0.
    rewrite !length_app, Hlen. cbn. lia.
  - apply Hlit; [done|]. eapply IH; [|done]. subst n. cbn. lia.
Qed.

Lemma render_Lit g c segs : render g (Lit c :: segs) = c :: render g segs.
Proof. done. Qed.

Lemma render_Block g m segs :
  render g (Block m :: segs) = g m ++ render g segs.
Proof. done. Qed.

(* The scan cuts the text into pieces and loses nothing. *)
Lemma render_group0_scan s : render group0 (scan s) = s.
Proof.
  induction s as [|c s Hm IH|m rest Hm IH] using scan_ind; [done|..].
  - by rewrite scan_cons_None, render_Lit, IH.
  - by rewrite scan_match, render_Block, IH.
Qed.

(* --- Blocks --------------------------------------------------------- *)

(** C7: a block whose first line starts with neither TABLE nor LIST, in
    any letter case, is returned as it stands (group(0)); the skip message
    is logged and the changed flag keeps its value. *)
Theorem unsupported_block_passes_through fs vault fp m st line0 rest :
  splitlines (strip (group1 m)) = line0 :: rest ->
  startswith (lit "TABLE") (upper (strip line0)) = false ->
  startswith (lit "LIST") (upper (strip line0)) = false ->
  _process_block fs vault fp m st
  = (Return (group0 m),
     PState (changed st) (trace st ++ [Logged (LogSkipped fp)])).
Proof.
  intros Hlines Htable Hlist. unfold _process_block.
  rewrite Hlines, Htable, Hlist. reflexivity.
Qed.

(* The rows of a table without columns: each file is read all the same. *)
Lemma table_rows_without_columns fs vault files :
  mapM (table_row fs vault []) files
  = map (fun _ => []) <$> mapM (read_text fs) files.
Proof.
  induction files as [|f files IH]; [done|]. cbn [mapM].
  unfold mbind, mret, fmap, result_bind, result_ret, result_fmap in *.
  rewrite IH. unfold table_row. cbn [mapM mbind result_bind].
  unfold mbind, result_bind. destruct (read_text fs f) as [ftext|]; [|done].
  cbn [mret]. by destruct (mapM (read_text fs) files).
Qed.

(** C6, amended: a TABLE block whose column list is empty after splitting
    at the commas, trimming and dropping the empty entries still gathers its
    files and reads each of them, before the guard on the columns.  When
    that raises nothing, the block is returned as it stands (group(0));
    otherwise the block raises.  In both cases the state, and so the
    changed flag, is untouched and nothing is logged. *)
Theorem table_without_columns_is_kept fs vault fp m st line0 rest :
  splitlines (strip (group1 m)) = line0 :: rest ->
  startswith (lit "TABLE") (upper (strip line0)) = true ->
  table_columns (re_split FROM (strip line0)) = [] ->
  _process_block fs vault fp m st
  = (match files ← _gather_files fs vault
                     (from_clause (re_split FROM (strip line0)));
           mapM (read_text fs) files with
     | Return _ => Return (group0 m)
     | Raise => Raise
     end, st).
Proof.
  intros Hlines Htable Hcols. unfold _process_block.
  rewrite Hlines, Htable, Hcols.
  unfold mbind, mret, M_bind, M_ret, lift, result_bind.
  destruct (_gather_files fs vault _) as [files|]; [|done].
  rewrite table_rows_without_columns.
  by destruct (mapM (read_text fs) files).
Qed.

(* --- _process_block and the state ----------------------------------- *)

Ltac unfold_M :=
  unfold mbind, mret, M_bind, M_ret, lift, logger, set_changed;
  cbn [fst snd changed trace].
Tactic Notation "unfold_M" "in" hyp(H) :=
  unfold mbind, mret, M_bind, M_ret, lift, logger, set_changed in H;
  cbn [fst snd changed trace] in H.

Lemma pstate_eta st : PState (changed st) (trace st) = st.
Proof. destruct st; reflexivity. Qed.

Lemma pstate_frame_id st :
  PState (changed st || false) (trace st ++ []) = st.
Proof. rewrite orb_false_r, app_nil_r. apply pstate_eta. Qed.

(* What _process_block returns does not depend on the state it is called
   in, and what it does to the state is to raise the flag or not and to
   append its own messages. *)
Lemma process_block_frame fs vault fp m st :
  let run := block_run (_process_block fs vault fp) m in
  _process_block fs vault fp m st
  = (run.1, PState (changed st || changed run.2)
                   (trace st ++ trace run.2)).
Proof.
  unfold block_run, _process_block.
  destruct (splitlines (strip (group1 m))) as [|line0 rest].
  { unfold_M. by rewrite pstate_frame_id. }
  destruct (startswith (lit "TABLE") (upper (strip line0))).
  { unfold_M.
    destruct (_gather_files fs vault _) as [files|];
      cbn [fst snd changed trace]; [|by rewrite pstate_frame_id].
    destruct (mapM _ files) as [rows|]; cbn [fst snd changed trace];
      [|by rewrite pstate_frame_id].
    destruct (nonempty _); cbn [fst snd changed trace];
      [|by rewrite pstate_frame_id].
    by rewrite orb_true_r. }
  destruct (startswith (lit "LIST") (upper (strip line0))).
  { unfold_M.
    destruct (_gather_files fs vault _) as [files|];
      cbn [fst snd changed trace]; [|by rewrite pstate_frame_id].
    destruct (mapM _ files) as [items|]; cbn [fst snd changed trace];
      [|by rewrite pstate_frame_id].
    by rewrite orb_true_r. }
  unfold_M. by rewrite orb_false_r.
Qed.

(* The result does not depend on the document the block stands in. *)
Lemma block_text_any_document fs vault fp fp' m :
  (block_run (_process_block fs vault fp) m).1
  = (block_run (_process_block fs vault fp') m).1.
Proof.
  unfold block_run, _process_block.
  destruct (splitlines (strip (group1 m))) as [|line0 rest]; [done|].
  destruct (startswith (lit "TABLE") (upper (strip line0))).
  { unfold_M.
    destruct (_gather_files fs vault _) as [files|];
      cbn [fst snd changed trace]; [|done].
    destruct (mapM _ files) as [rows|]; cbn [fst snd changed trace]; [|done].
    by destruct (nonempty _). }
  destruct (startswith (lit "LIST") (upper (strip line0))); [|done].
  unfold_M.
  destruct (_gather_files fs vault _) as [files|];
    cbn [fst snd changed trace]; [|done].
  by destruct (mapM _ files).
Qed.

(* A block that does not render leaves the flag down, and is returned as it
   stands when it returns: a TABLE block without columns raises when one of
   its files cannot be read. *)
Lemma block_kept fs vault fp m :
  renders m = false ->
  let run := block_run (_process_block fs vault fp) m in
  changed run.2 = false /\ forall r, run.1 = Return r -> r = group0 m.
Proof.
  unfold renders, block_run, _process_block.
  destruct (splitlines (strip (group1 m))) as [|line0 rest].
  { intros _. split; [done|]. by intros r [= <-]. }
  destruct (startswith (lit "TABLE") (upper (strip line0))).
  { destruct (table_columns _) as [|c cols]; [|done].
    intros _. unfold_M.
    destruct (_gather_files fs vault _) as [files|];
      cbn [fst snd changed trace]; [|done].
    destruct (mapM _ files) as [rows|]; cbn [fst snd changed trace]; [|done].
    split; [done|]. by intros r [= <-]. }
  intros ->. unfold_M. split; [done|]. by intros r [= <-].
Qed.

Lemma render_md_table_wrapped headers rows :
  exists body, _render_md_table headers rows = nl ++ body ++ nl.
Proof.
  exists (pipe_row headers ++ nl
          ++ pipe_row (replicate (length headers) (lit "---")) ++ nl
          ++ join nl (map pipe_row rows)).
  unfold _render_md_table. by rewrite <- !app_assoc.
Qed.

(* A block that renders raises the flag, and what it returns starts and
   ends with a newline. *)
Lemma block_rendered fs vault fp m r :
  renders m = true ->
  let run := block_run (_process_block fs vault fp) m in
  run.1 = Return r ->
  changed run.2 = true /\ exists body, r = nl ++ body ++ nl.
Proof.
  unfold renders, block_run, _process_block.
  destruct (splitlines (strip (group1 m))) as [|line0 rest]; [done|].
  destruct (startswith (lit "TABLE") (upper (strip line0))).
  { intros ->. unfold_M.
    destruct (_gather_files fs vault _) as [files|];
      cbn [fst snd changed trace]; [|done].
    destruct (mapM _ files) as [rows|]; cbn [fst snd changed trace]; [|done].
    intros [= <-]. split; [done|]. apply render_md_table_wrapped. }
  intros ->. unfold_M.
  destruct (_gather_files fs vault _) as [files|];
    cbn [fst snd changed trace]; [|done].
  destruct (mapM _ files) as [items|]; cbn [fst snd changed trace]; [|done].
  intros [= <-]. split; [done|]. by eexists.
Qed.

Lemma block_logs_only fs vault fp m :
  Forall is_log (trace (block_run (_process_block fs vault fp) m).2).
Proof.
  unfold block_run, _process_block.
  destruct (splitlines (strip (group1 m))) as [|line0 rest];
    [by constructor|].
  destruct (startswith (lit "TABLE") (upper (strip line0))).
  { unfold_M.
    destruct (_gather_files fs vault _) as [files|];
      cbn [fst snd changed trace]; [|by constructor].
    destruct (mapM _ files) as [rows|]; cbn [fst snd changed trace];
      [|by constructor].
    destruct (nonempty _); cbn [fst snd changed trace]; repeat constructor. }
  destruct (startswith (lit "LIST") (upper (strip line0))).
  { unfold_M.
    destruct (_gather_files fs vault _) as [files|];
      cbn [fst snd changed trace]; [|by constructor].
    destruct (mapM _ files) as [items|]; cbn [fst snd changed trace];
      repeat constructor. }
  unfold_M. repeat constructor.
Qed.

(* --- re.sub over a replacement function that frames the state ------- *)

Lemma process_block_framed fs vault fp :
  framed (_process_block fs vault fp).
Proof. intros m st. apply process_block_frame. Qed.

Lemma sub_segments_returns repl segs st :
  framed repl ->
  Forall (returns repl) (blocks segs) ->
  sub_segments repl segs st
  = (Return (render (returned repl) segs),
     PState (changed st || flags repl (blocks segs))
            (trace st ++ logs repl (blocks segs))).
Proof.
  intros Hfr. revert st.
  induction segs as [|[c|m] segs IH]; intros st Hall.
  - cbn. by rewrite pstate_frame_id.
  - cbn in Hall. cbn [sub_segments]. unfold_M. rewrite (IH st Hall).
    reflexivity.
  - cbn in Hall. apply Forall_cons in Hall as [[r Hr] Hall].
    cbn [sub_segments]. unfold_M. rewrite Hfr, Hr.
    rewrite IH by done. cbn [changed trace].
    unfold render, returned, flags, logs. cbn. rewrite Hr.
    by rewrite orb_assoc, app_assoc.
Qed.

Lemma sub_segments_Return_inv repl segs st out st' :
  framed repl ->
  sub_segments repl segs st = (Return out, st') ->
  Forall (returns repl) (blocks segs).
Proof.
  intros Hfr. revert st out st'.
  induction segs as [|[c|m] segs IH]; intros st out st' Hsub.
  - constructor.
  - cbn [sub_segments] in Hsub. unfold_M in Hsub. cbn.
    destruct (sub_segments repl segs st) as [[o|] s] eqn:E; [|done].
    by eapply IH.
  - cbn [sub_segments] in Hsub. unfold_M in Hsub. rewrite Hfr in Hsub.
    cbn. destruct (block_run repl m).1 as [r|] eqn:Hr; [|done].
    apply Forall_cons. split; [by exists r|].
    destruct (sub_segments repl segs _) as [[o|] s] eqn:E; [|done].
    by eapply IH.
Qed.

Lemma sub_segments_Raise repl segs st :
  framed repl ->
  ~ Forall (returns repl) (blocks segs) ->
  (sub_segments repl segs st).1 = Raise.
Proof.
  intros Hfr Hn.
  destruct (sub_segments repl segs st) as [[out|] st'] eqn:E; [|done].
  destruct Hn. by eapply sub_segments_Return_inv.
Qed.

Lemma flags_renders fs vault fp bs :
  Forall (returns (_process_block fs vault fp)) bs ->
  flags (_process_block fs vault fp) bs = existsb renders bs.
Proof.
  induction 1 as [|m bs [r Hr] _ IH]; [done|].
  unfold flags in *. cbn. rewrite IH. f_equal.
  destruct (renders m) eqn:Hm.
  - by eapply block_rendered.
  - by apply block_kept.
Qed.

Lemma logs_are_logs fs vault fp bs :
  Forall is_log (logs (_process_block fs vault fp) bs).
Proof.
  unfold logs. induction bs as [|m bs IH]; cbn; [constructor|].
  apply Forall_app. split; [apply block_logs_only | apply IH].
Qed.

Lemma is_log_not_Written (l : list (io_action Path)) p c :
  Forall is_log l -> ~ In (Written p c) l.
Proof.
  intros Hl Hin. rewrite Forall_forall in Hl.
  apply list_elem_of_In in Hin. by apply Hl in Hin.
Qed.

Lemma is_log_not_Copied (l : list (io_action Path)) p q :
  Forall is_log l -> ~ In (Copied p q) l.
Proof.
  intros Hl Hin. rewrite Forall_forall in Hl.
  apply list_elem_of_In in Hin. by apply Hl in Hin.
Qed.

(* What one turn of the loop does, in full. *)
Lemma convert_file_Return vault backup fp (w w' : world Path FS) :
  convert_file vault backup fp w = (Return tt, w') ->
  exists text,
    read_text (disk w) fp = Return text
    /\ let repl := _process_block (disk w) vault fp in
       let segs := scan text in
       let msgs := logs repl (blocks segs) in
       let new_text := render (returned repl) segs in
       let bak := with_suffix_bak fp in
       Forall (returns repl) (blocks segs)
       /\ if existsb renders (blocks segs) then
            w' = World (write_text
                          (if backup then copy2 (disk w) fp bak else disk w)
                          fp new_text)
                       ((output w ++ msgs)
                        ++ (if backup
                            then [Copied fp bak; Logged (LogBackup bak)]
                            else [])
                        ++ [Written fp new_text; Logged (LogUpdated fp)])
          else w' = World (disk w) (output w ++ msgs).
Proof.
  unfold convert_file, re_sub. intros Hrun.
  destruct (read_text (disk w) fp) as [text|]; [|done].
  exists text. split; [done|]. cbn zeta.
  destruct (sub_segments _ _ _) as [[new_text|] st] eqn:Hsub;
    [|by destruct (changed st)].
  pose proof Hsub as Hall.
  apply sub_segments_Return_inv in Hall; [|apply process_block_framed].
  split; [done|].
  rewrite sub_segments_returns in Hsub
    by (done || apply process_block_framed).
  injection Hsub as <- <-. cbn [changed trace] in Hrun.
  rewrite ?orb_false_l, flags_renders in Hrun by done.
  destruct (existsb renders _); [|by injection Hrun as <-].
  destruct backup; injection Hrun as <-; cbn [disk output];
    by rewrite <- ?app_assoc.
Qed.

Lemma convert_file_Raise vault backup fp (w w' : world Path FS) :
  convert_file vault backup fp w = (Raise, w') -> disk w' = disk w.
Proof.
  unfold convert_file.
  destruct (read_text (disk w) fp) as [text|]; [|by intros [= <-]].
  destruct (re_sub _ _ _) as [[new_text|] st].
  - by destruct (changed st).
  - by intros [= <-].
Qed.

(* --- _gather_files and _value_for_column ----------------------------- *)

(* An existing path that is no directory is globbed itself. *)
Lemma gather_files_not_a_directory fs vault_root from_path :
  nonempty from_path = true ->
  let target := joinpath vault_root (strip_quotes from_path) in
  exists_ fs target = Return true ->
  is_dir fs target = Return false ->
  _gather_files fs vault_root (Some from_path) = Return (rglob_md fs target).
Proof.
  intros Hne target Hex Hdir. subst target.
  unfold _gather_files, gather_base, mbind, result_bind.
  by rewrite Hne, Hex, Hdir.
Qed.

(* A path that does not exist gives way to the vault root. *)
Lemma gather_files_falls_back_when_missing fs vault_root from_path :
  exists_ fs (joinpath vault_root (strip_quotes from_path)) = Return false ->
  _gather_files fs vault_root (Some from_path)
  = Return (rglob_md fs vault_root).
Proof.
  intros Hex. unfold _gather_files, gather_base, mbind, result_bind.
  destruct (nonempty from_path); [|done]. by rewrite Hex.
Qed.

(* The exception of exists() is that of _gather_files. *)
Lemma gather_files_raises fs vault_root from_path :
  nonempty from_path = true ->
  exists_ fs (joinpath vault_root (strip_quotes from_path)) = Raise ->
  _gather_files fs vault_root (Some from_path) = Raise.
Proof.
  intros Hne Hex. unfold _gather_files, gather_base, mbind, result_bind.
  by rewrite Hne, Hex.
Qed.


(* With a header value that is a str, the third rule returns the value
   itself. *)
Lemma header_str_value_is_returned md_text col file_path vault_root kvs s :
  _extract_frontmatter md_text = PDict kvs ->
  one_of ["file.name"; "file"]%string (lower (strip col)) = false ->
  one_of ["file.path"; "path"]%string (lower (strip col)) = false ->
  dict_lookup (strip col) kvs = Some (PStr s) ->
  _value_for_column md_text col file_path vault_root = Return (PStr s).
Proof.
  intros Hfm H1 H2 Hv. unfold _value_for_column.
  rewrite H1, H2, Hfm. cbn. rewrite Hv. cbn. by rewrite py_str_PStr.
Qed.

(* --- Pipes in a table line -------------------------------------------- *)

Lemma unescaped_pipes_after_app b x y :
  unescaped_pipes_after b (x ++ y)
  = unescaped_pipes_after b x
    + unescaped_pipes_after
        (match last x with Some c => eqc c "\" | None => b end) y.
Proof.
  revert b. induction x as [|c x IH]; intros b; [done|].
  cbn [app unescaped_pipes_after]. rewrite IH, last_cons.
  destruct (last x); lia.
Qed.

Lemma replace_pipe_safe v : pipe_safe (replace "|" (lit "\|") v).
Proof.
  unfold pipe_safe, replace. induction v as [|c v IH]; intros b; [done|].
  cbn [flat_map]. destruct (eqc c "|") eqn:Hc.
  - apply eqc_eq in Hc as ->. cbn. apply IH.
  - cbn [app unescaped_pipes_after]. rewrite Hc. cbn. apply IH.
Qed.

Lemma dashes_pipe_safe : pipe_safe (lit "---").
Proof. by intros []. Qed.

Lemma unescaped_pipes_after_safe b cell y :
  pipe_safe cell ->
  unescaped_pipes_after b (cell ++ " "%char :: y)
  = unescaped_pipes_after false y.
Proof.
  intros Hsafe. rewrite unescaped_pipes_after_app, Hsafe.
  cbn [unescaped_pipes_after].
  change (eqc " " "|") with false. by change (eqc " " "\") with false.
Qed.

Lemma join_cells_pipes b cells :
  Forall pipe_safe cells -> cells <> [] ->
  unescaped_pipes_after b (join (lit " | ") cells ++ lit " |")
  = length cells.
Proof.
  intros Hall. revert b.
  induction Hall as [|p cells Hp Hall IH]; intros b Hne; [done|].
  destruct cells as [|q cells].
  - cbn [join]. change (lit " |") with (" "%char :: lit "|").
    by rewrite unescaped_pipes_after_safe.
  - change (join (lit " | ") (p :: q :: cells))
      with (p ++ lit " | " ++ join (lit " | ") (q :: cells)).
    rewrite <- !app_assoc.
    change (lit " | " ++ ?x) with (" "%char :: "|"%char :: " "%char :: x).
    rewrite unescaped_pipes_after_safe by done.
    cbn [unescaped_pipes_after length]. rewrite IH by done. by cbn.
Qed.

(* A line of N >= 1 safe cells has N + 1 delimiters. *)
Lemma pipe_row_pipes cells :
  Forall pipe_safe cells -> cells <> [] ->
  unescaped_pipes (pipe_row cells) = S (length cells).
Proof.
  intros Hall Hne. unfold unescaped_pipes, pipe_row.
  change (lit "| " ++ ?x) with ("|"%char :: " "%char :: x).
  cbn [unescaped_pipes_after]. rewrite join_cells_pipes by done. by cbn.
Qed.

Lemma or_empty (val : str) : (if nonempty val then val else []) = val.
Proof. by destruct val. Qed.

(* What a cell of a row is. *)
Lemma table_row_cells fs vault cols f row :
  table_row fs vault cols f = Return row ->
  exists text,
    read_text fs f = Return text
    /\ Forall2 (fun col cell =>
                  exists v,
                    _value_for_column text col f vault = Return (PStr v)
                    /\ cell = replace "|" (lit "\|") v)
               cols row.
Proof.
  unfold table_row. destruct (read_text fs f) as [text|]; [|done].
  intros Hrow. exists text. split; [done|].
  change (mapM (fun col =>
                  val ← _value_for_column text col f vault;
                  val ← py_replace_pipe val;
                  Return (if nonempty val then val else [])) cols
          = Return row) in Hrow.
  apply mapM_Return_inv in Hrow. eapply Forall2_impl; [exact Hrow|].
  intros col cell. cbn beta.
  destruct (_value_for_column _ _ _ _) as [[]|]; try done.
  cbn. rewrite or_empty. intros [= <-]. by eexists.
Qed.

(** C2: the text a TABLE block with N >= 1 columns is replaced by is a
    header line of the N column names in order, a line of N cells ---,
    and one line per gathered file, each of N cells in the order of the
    columns: cell j is the value resolved for column j, from the text read
    from the file, with every pipe replaced by backslash pipe, so that the
    line has exactly N + 1 delimiting pipes. *)
Theorem table_block_shape fs vault fp m st line0 rest out st' :
  splitlines (strip (group1 m)) = line0 :: rest ->
  startswith (lit "TABLE") (upper (strip line0)) = true ->
  let parts := re_split FROM (strip line0) in
  let cols := table_columns parts in
  let dashes := replicate (length cols) (lit "---") in
  cols <> [] ->
  _process_block fs vault fp m st = (Return out, st') ->
  exists files rows,
    _gather_files fs vault (from_clause parts) = Return files
    /\ out = nl ++ pipe_row cols ++ nl ++ pipe_row dashes ++ nl
             ++ join nl (map pipe_row rows) ++ nl
    /\ unescaped_pipes (pipe_row dashes) = S (length cols)
    /\ Forall2
         (fun f row =>
            exists text,
              read_text fs f = Return text
              /\ Forall2
                   (fun col cell =>
                      exists v,
                        _value_for_column text col f vault
                        = Return (PStr v)
                        /\ cell = replace "|" (lit "\|") v)
                   cols row
              /\ unescaped_pipes (pipe_row row) = S (length cols))
         files rows.
Proof.
  intros Hlines Htable parts cols dashes Hcols.
  unfold _process_block. rewrite Hlines, Htable.
  fold parts. fold cols. unfold_M.
  destruct (_gather_files fs vault (from_clause parts)) as [files|];
    cbn [fst snd changed trace]; [|done].
  destruct (mapM _ files) as [rows|] eqn:Hrows;
    cbn [fst snd changed trace]; [|done].
  assert (nonempty cols = true) as -> by by destruct cols.
  intros [= <- _]. exists files, rows. split; [done|]. split; [done|].
  split.
  { rewrite pipe_row_pipes.
    - unfold dashes. by rewrite length_replicate.
    - apply Forall_replicate, dashes_pipe_safe.
    - unfold dashes. by destruct cols. }
  apply mapM_Return_inv in Hrows.
  eapply Forall2_impl; [exact Hrows|].
  intros f row (text & Hread & Hrow)%table_row_cells.
  exists text. split; [done|]. split; [done|].
  rewrite pipe_row_pipes.
  - by rewrite (Forall2_length _ _ _ Hrow).
  - clear -Hrow. induction Hrow as [|col cell ? ? [v [_ ->]] _ IH];
      constructor; [apply replace_pipe_safe | done].
  - intros ->. apply Forall2_length in Hrow. by destruct cols.
Qed.

(* --- The document holding the block is scanned like any other ------- *)

Lemma join_nl_line (x : str) (l : list str) :
  In x l ->
  exists pre post, nl ++ join nl l ++ nl = pre ++ nl ++ x ++ nl ++ post.
Proof.
  induction l as [|h t IH]; [done|]. intros [->|Hin].
  - exists []. destruct t as [|y t].
    + by exists [].
    + exists (join nl (y :: t) ++ nl). cbn [join].
      by rewrite <- !app_assoc.
  - destruct (IH Hin) as (pre & post & Heq).
    destruct t as [|y t]; [done|].
    exists (nl ++ h ++ pre), post. cbn [join] in *.
    rewrite <- !app_assoc. do 2 f_equal. exact Heq.
Qed.

Lemma Forall2_In_l {A B} (R : A -> B -> Prop) l k x :
  Forall2 R l k -> In x l -> exists y, In y k /\ R x y.
Proof.
  induction 1 as [|a b l k Hab _ IH]; [done|]. intros [->|Hin].
  - exists b. split; [by left|done].
  - destruct (IH Hin) as (y & Hy & HR). exists y. split; [by right|done].
Qed.

(* The cells of a row are the values of the columns, pipes replaced. *)
Lemma row_of_values (P : str -> str -> Prop) cols row :
  Forall2 (fun col cell =>
             exists v, P col v /\ cell = replace "|" (lit "\|") v)
          cols row ->
  exists vals,
    Forall2 P cols vals /\ row = map (replace "|" (lit "\|")) vals.
Proof.
  induction 1 as [|col cell cols row (v & Hv & ->) _ (vals & Hvals & ->)].
  - by exists [].
  - exists (v :: vals). split; [by constructor|done].
Qed.

(* The line a rendered block holds for a file it gathered. *)
Lemma block_line_of_file fs vault fp m line0 rest out D :
  splitlines (strip (group1 m)) = line0 :: rest ->
  renders m = true ->
  (block_run (_process_block fs vault fp) m).1 = Return out ->
  let parts := re_split FROM (strip line0) in
  exists base,
    gather_base fs vault (from_clause parts) = Return base
    /\ _gather_files fs vault (from_clause parts)
       = Return (rglob_md fs base)
    /\ (In D (rglob_md fs base) ->
        exists text pre post line,
          read_text fs D = Return text
          /\ out = pre ++ nl ++ line ++ nl ++ post
          /\ if startswith (lit "TABLE") (upper (strip line0)) then
               exists vals,
                 Forall2 (fun col v =>
                            _value_for_column text col D vault
                            = Return (PStr v))
                         (table_columns parts) vals
                 /\ line = pipe_row (map (replace "|" (lit "\|")) vals)
             else
               exists v rel,
                 _value_for_column text (lit "title") D vault = Return v
                 /\ relative_to D vault = Return rel
                 /\ line = lit "- [" ++ (if truthy v then py_str v
                                         else stem D)
                           ++ lit "](" ++ rel ++ lit ")").
Proof.
  intros Hlines Hrenders Hrun parts.
  unfold renders in Hrenders. unfold block_run, _process_block in Hrun.
  rewrite Hlines in *. fold parts in Hrenders, Hrun.
  unfold _gather_files in *.
  destruct (gather_base fs vault (from_clause parts)) as [base|] eqn:Hbase.
  2:{ by destruct (startswith (lit "TABLE") (upper (strip line0))),
               (startswith (lit "LIST") (upper (strip line0))). }
  exists base. split; [done|]. split; [done|]. intros Hin.
  change (Return base ≫= (fun base => Return (rglob_md fs base)))
    with (Return (rglob_md fs base)) in Hrun.
  destruct (startswith (lit "TABLE") (upper (strip line0))).
  - unfold_M in Hrun.
    destruct (mapM _ _) as [rows|] eqn:Hrows;
      cbn [fst snd changed trace] in Hrun; [|done].
    rewrite Hrenders in Hrun. injection Hrun as <-.
    apply mapM_Return_inv in Hrows.
    destruct (Forall2_In_l _ _ _ _ Hrows Hin) as (cells & Hcells & Hrow).
    apply table_row_cells in Hrow as (text & Hread & Hrow).
    apply row_of_values in Hrow as (vals & Hvals & ->).
    destruct (join_nl_line
                (pipe_row (map (replace "|" (lit "\|")) vals))
                (map pipe_row rows))
      as (pre & post & Heq); [by apply in_map|].
    exists text,
      (nl ++ pipe_row (table_columns parts) ++ nl
       ++ pipe_row (replicate (length (table_columns parts))
                              (lit "---")) ++ pre),
      post, (pipe_row (map (replace "|" (lit "\|")) vals)).
    split; [done|]. split; [|by exists vals]. unfold _render_md_table.
    rewrite <- !app_assoc. do 4 f_equal. exact Heq.
  - rewrite Hrenders in Hrun. unfold_M in Hrun.
    destruct (mapM _ _) as [items|] eqn:Hitems;
      cbn [fst snd changed trace] in Hrun; [|done].
    injection Hrun as <-. apply mapM_Return_inv in Hitems.
    destruct (Forall2_In_l _ _ _ _ Hitems Hin) as (item & Hitem & Hrow).
    unfold list_item, mbind, result_bind in Hrow.
    destruct (read_text fs D) as [text|] eqn:Hread; [|done].
    destruct (_value_for_column text (lit "title") D vault) as [v|] eqn:Hv;
      [|done].
    destruct (relative_to D vault) as [rel|] eqn:Hrel; [|done].
    injection Hrow as <-.
    destruct (join_nl_line
                (lit "- " ++ lit "[" ++ (if truthy v then py_str v
                                         else stem D)
                 ++ lit "](" ++ rel ++ lit ")")
                (map (fun it => lit "- " ++ it) items))
      as (pre & post & Heq);
      [by apply (in_map (fun it => lit "- " ++ it))|].
    exists text, pre, post,
      (lit "- [" ++ (if truthy v then py_str v else stem D)
       ++ lit "](" ++ rel ++ lit ")").
    split; [done|]. split; [exact Heq|]. by exists v, rel.
Qed.

(* The text of a block stands in the text of the document. *)
Lemma render_block_in g segs m :
  In m (blocks segs) -> exists pre post, render g segs = pre ++ g m ++ post.
Proof.
  induction segs as [|[c|m'] segs IH]; [done|..].
  - intros (pre & post & Heq)%IH. exists (c :: pre), post.
    rewrite render_Lit, Heq. done.
  - cbn [blocks omap list_omap]. intros [->|Hin].
    + by exists [], (render g segs).
    + destruct (IH Hin) as (pre & post & Heq).
      exists (g m' ++ pre), post.
      rewrite render_Block, Heq. by rewrite <- !app_assoc.
Qed.

Lemma existsb_In {A} (f : A -> bool) (l : list A) x :
  In x l -> f x = true -> existsb f l = true.
Proof. intros Hin Hx. apply existsb_exists. by exists x. Qed.

(** C10: _gather_files leaves out no file of the glob of its base, the
    document D that holds the block included.  In a turn of the loop over
    D that runs to its end, for a block of D that renders: the files
    gathered are the whole glob of the base; and when that glob lists D
    (the base is an ancestor of D), the text written to D holds a line for
    D, a table row whose cells are the values of the columns, or a list
    item of title and relative path, resolved from the text that was read
    from D before the turn wrote to it. *)
Theorem containing_document_is_scanned vault backup D
    (w w' : world Path FS) text m line0 rest :
  convert_file vault backup D w = (Return tt, w') ->
  read_text (disk w) D = Return text ->
  In m (blocks (scan text)) ->
  splitlines (strip (group1 m)) = line0 :: rest ->
  renders m = true ->
  let parts := re_split FROM (strip line0) in
  let bak := with_suffix_bak D in
  exists base new_text,
    gather_base (disk w) vault (from_clause parts) = Return base
    /\ _gather_files (disk w) vault (from_clause parts)
       = Return (rglob_md (disk w) base)
    /\ disk w'
       = write_text (if backup then copy2 (disk w) D bak else disk w)
                    D new_text
    /\ In (Written D new_text) (output w')
    /\ (In D (rglob_md (disk w) base) ->
        exists pre post line,
          new_text = pre ++ nl ++ line ++ nl ++ post
          /\ if startswith (lit "TABLE") (upper (strip line0)) then
               exists vals,
                 Forall2 (fun col v =>
                            _value_for_column text col D vault
                            = Return (PStr v))
                         (table_columns parts) vals
                 /\ line = pipe_row (map (replace "|" (lit "\|")) vals)
             else
               exists v rel,
                 _value_for_column text (lit "title") D vault = Return v
                 /\ relative_to D vault = Return rel
                 /\ line = lit "- [" ++ (if truthy v then py_str v
                                         else stem D)
                           ++ lit "](" ++ rel ++ lit ")").
Proof.
  intros (text' & Hread' & Hall & Hrun)%convert_file_Return
         Hread Hm Hlines Hrenders parts bak.
  rewrite Hread in Hread'. injection Hread' as <-. cbn zeta in *.
  set (repl := _process_block (disk w) vault D) in *.
  rewrite (existsb_In renders _ m Hm Hrenders) in Hrun.
  rewrite Forall_forall in Hall.
  destruct (Hall m) as [out Hout]; [by apply list_elem_of_In|].
  destruct (block_line_of_file (disk w) vault D m line0 rest out D
              Hlines Hrenders Hout)
    as (base & Hbase & Hfiles & Hline).
  exists base, (render (returned repl) (scan text)).
  split; [done|]. split; [done|]. subst w'. cbn [disk output].
  split; [done|]. split.
  { rewrite !in_app_iff. right. right. by left. }
  intros HD. destruct (Hline HD) as (text' & pre & post & line & Hread'
                                     & Heq & Hspec).
  rewrite Hread in Hread'. injection Hread' as <-.
  destruct (render_block_in (returned repl) (scan text) m Hm)
    as (pre' & post' & ->).
  unfold returned. rewrite Hout, Heq.
  exists (pre' ++ pre), (post ++ post'), line.
  split; [by rewrite <- !app_assoc|done].
Qed.

(* --- The blocks in any order ----------------------------------------- *)

Lemma run_in_order_returns repl bs order res st :
  framed repl ->
  Forall (returns repl) (picked bs order) ->
  run_in_order repl bs order res st
  = (Return (recorded repl bs order res),
     PState (changed st || flags repl (picked bs order))
            (trace st ++ logs repl (picked bs order))).
Proof.
  intros Hfr. revert res st.
  induction order as [|i order IH]; intros res st Hall.
  - cbn. by rewrite pstate_frame_id.
  - unfold picked in *. cbn [run_in_order omap list_omap recorded foldl] in *.
    destruct (bs !! i) as [m|] eqn:Hi.
    + apply Forall_cons in Hall as [[r Hr] Hall].
      unfold_M. rewrite Hfr, Hr. rewrite IH by done.
      cbn [changed trace]. unfold returned, flags, logs. cbn.
      by rewrite Hr, orb_assoc, app_assoc.
    + by rewrite IH.
Qed.

Lemma run_in_order_Return_inv repl bs order res st out st' :
  framed repl ->
  run_in_order repl bs order res st = (Return out, st') ->
  Forall (returns repl) (picked bs order).
Proof.
  intros Hfr. revert res st.
  induction order as [|i order IH]; intros res st Hrun; [constructor|].
  unfold picked in *. cbn [run_in_order omap list_omap] in *.
  destruct (bs !! i) as [m|] eqn:Hi.
  - unfold_M in Hrun. rewrite Hfr in Hrun.
    destruct (block_run repl m).1 as [r|] eqn:Hr; [|done].
    apply Forall_cons. split; [by exists r|]. by eapply IH.
  - by eapply IH.
Qed.

Lemma recorded_lookup (repl : re_match -> M Path str) bs order res i :
  recorded repl bs order res !! i
  = match bs !! i with
    | Some m =>
        if decide (i ∈ order) then Some (returned repl m) else res !! i
    | None => res !! i
    end.
Proof.
  revert res. induction order as [|j order IH]; intros res.
  - cbn. destruct (bs !! i); [|done].
    by rewrite decide_False by apply not_elem_of_nil.
  - change (recorded repl bs (j :: order) res)
      with (recorded repl bs order
              (match bs !! j with
               | Some m => <[j := returned repl m]> res
               | None => res
               end)).
    rewrite IH.
    destruct (bs !! i) as [m|] eqn:Hi.
    + destruct (decide (i ∈ order)) as [Hin|Hnin].
      * by rewrite decide_True by by right.
      * destruct (decide (i = j)) as [->|Hne].
        -- rewrite decide_True by by left.
           by rewrite Hi, lookup_insert_eq.
        -- rewrite decide_False
             by (intros [?|?]%elem_of_cons; congruence).
           destruct (bs !! j); [by rewrite lookup_insert_ne|done].
    + destruct (bs !! j) as [mj|] eqn:Hj; [|done].
      rewrite lookup_insert_ne; [done|congruence].
Qed.

Lemma splice_render (repl : re_match -> M Path str) (res : gmap nat str)
    segs k :
  (forall j m, blocks segs !! j = Some m ->
               res !! (k + j) = Some (returned repl m)) ->
  splice res k segs = render (returned repl) segs.
Proof.
  revert k. induction segs as [|[c|m] segs IH]; intros k Hres; [done|..].
  - cbn. f_equal. by apply IH.
  - cbn [splice]. rewrite <- (Nat.add_0_r k) at 1.
    rewrite (Hres 0 m) by done. cbn. f_equal. apply IH.
    intros j m' Hj. replace (S k + j) with (k + S j) by lia.
    by apply Hres.
Qed.

Lemma picked_seq bs : picked bs (seq 0 (length bs)) = bs.
Proof.
  unfold picked.
  assert (forall pre,
    omap (fun i => (pre ++ bs) !! i) (seq (length pre) (length bs)) = bs)
    as Hgen.
  { induction bs as [|b bs IH]; intros pre; [done|].
    cbn [length seq omap list_omap].
    rewrite list_lookup_middle by done. f_equal.
    specialize (IH (pre ++ [b])).
    rewrite length_app, <- app_assoc, Nat.add_1_r in IH. exact IH. }
  apply (Hgen []).
Qed.

Lemma picked_Permutation bs order :
  order ≡ₚ seq 0 (length bs) -> picked bs order ≡ₚ bs.
Proof.
  intros Hperm. rewrite <- (picked_seq bs) at 2. unfold picked.
  by rewrite Hperm.
Qed.

Lemma existsb_Permutation {A} (f : A -> bool) (l k : list A) :
  l ≡ₚ k -> existsb f l = existsb f k.
Proof.
  induction 1 as [|x l k _ IH|x y l|l k j _ IH1 _ IH2]; cbn;
    [done|by rewrite IH|by destruct (f x), (f y)|congruence].
Qed.

(** C8: what _process_block returns for a span is the same in every
    state, so it depends on the span and the file system only; and
    calling it on the blocks of a document in any order of the blocks,
    then splicing the results in, gives the outcome of re.sub: the same
    text or an exception in both, the same changed flag and the same log
    messages up to their order. *)
Theorem blocks_order_independent fs vault fp text order st :
  order ≡ₚ seq 0 (length (blocks (scan text))) ->
  let repl := _process_block fs vault fp in
  let a := re_sub repl text st in
  let b := sub_in_order repl text order st in
  (forall m st1 st2, (repl m st1).1 = (repl m st2).1)
  /\ a.1 = b.1
  /\ (forall out, a.1 = Return out ->
        changed a.2 = changed b.2 /\ trace a.2 ≡ₚ trace b.2).
Proof.
  intros Hperm repl a b.
  assert (framed repl) as Hfr by apply process_block_framed.
  split. { intros m st1 st2. by rewrite !Hfr. }
  pose proof (picked_Permutation _ _ Hperm) as Hpick.
  subst a b. unfold re_sub, sub_in_order. set (segs := scan text) in *.
  destruct (sub_segments repl segs st) as [[out|] st'] eqn:Hsub.
  - pose proof Hsub as Hall. apply sub_segments_Return_inv in Hall; [|done].
    rewrite sub_segments_returns in Hsub by done. injection Hsub as <- <-.
    assert (Forall (returns repl) (picked (blocks segs) order)) as Hall'
      by by rewrite Hpick.
    unfold_M. rewrite run_in_order_returns by done.
    cbn [fst snd changed trace].
    rewrite (splice_render repl).
    + split; [done|]. intros _ _. split.
      * unfold flags. by rewrite (existsb_Permutation _ _ _ Hpick).
      * unfold logs. by rewrite Hpick.
    + intros j m Hj. rewrite recorded_lookup. cbn. rewrite Hj.
      rewrite decide_True; [done|]. rewrite Hperm.
      apply elem_of_seq. apply lookup_lt_Some in Hj. lia.
  - cbn [fst]. split; [|done]. unfold_M.
    destruct (run_in_order _ _ _ _ _) as [[res|] st''] eqn:Hrun; [|done].
    apply run_in_order_Return_inv in Hrun; [|done].
    rewrite Hpick in Hrun.
    by rewrite sub_segments_returns in Hsub.
Qed.

(* What is returned for a block that does not render is the block. *)
Lemma returned_kept fs vault fp m :
  renders m = false -> returned (_process_block fs vault fp) m = group0 m.
Proof.
  intros Hm. unfold returned.
  destruct (block_kept fs vault fp m Hm) as [_ Hkept].
  destruct (block_run _ m).1 as [r|]; [by apply Hkept|done].
Qed.

Lemma render_returned_quiet fs vault fp segs :
  existsb renders (blocks segs) = false ->
  render (returned (_process_block fs vault fp)) segs = render group0 segs.
Proof.
  induction segs as [|[c|m] segs IH]; [done|..].
  - intros Hq. cbn. f_equal. by apply IH.
  - cbn [blocks omap list_omap existsb].
    intros [Hm Hq]%orb_false_elim. cbn. f_equal; [|by apply IH].
    by apply returned_kept.
Qed.

(* --- Scanning the text a substitution produced ----------------------- *)







Lemma ieqc_backtick c : ieqc "`" c = true -> c = "`"%char.
Proof.
  destruct c as [[] [] [] [] [] [] [] []]; vm_compute; intros; congruence.
Qed.







(* --- A second pass ---------------------------------------------------- *)



Lemma render_app g segs segs' :
  render g (segs ++ segs') = render g segs ++ render g segs'.
Proof. apply flat_map_app. Qed.

Lemma render_map_Lit g (x : str) : render g (map Lit x) = x.
Proof. induction x as [|c x IH]; [done|]. cbn. by f_equal. Qed.


Lemma render_relabel kept g h segs :
  (forall m, kept m = true -> h m = g m) ->
  render h (relabel kept g segs) = render g segs.
Proof.
  intros Hh. induction segs as [|[c|m] segs IH]; [done|..].
  - cbn [relabel flat_map]. cbn [app]. by rewrite !render_Lit, <- IH.
  - cbn [relabel flat_map]. rewrite render_app, render_Block. f_equal;
      [|done].
    destruct (kept m) eqn:Hk.
    + cbn. rewrite app_nil_r. by apply Hh.
    + apply render_map_Lit.
Qed.


(* --- Documents none of whose blocks renders --------------------------- *)

(* Whether it returns or raises, re.sub adds nothing but the messages of the
   blocks to the output. *)
Lemma sub_segments_trace repl segs st :
  framed repl ->
  (forall m, Forall is_log (trace (block_run repl m).2)) ->
  exists new,
    trace (sub_segments repl segs st).2 = trace st ++ new
    /\ Forall is_log new.
Proof.
  intros Hfr Hlog. revert st.
  induction segs as [|[c|m] segs IH]; intros st.
  - exists []. by rewrite app_nil_r.
  - cbn [sub_segments]. unfold_M. destruct (IH st) as (new & Hnew & Hall).
    exists new. by destruct (sub_segments repl segs st) as [[out|] st'].
  - cbn [sub_segments]. unfold_M. rewrite Hfr.
    destruct (block_run repl m).1 as [r|].
    + match goal with
      | |- context [sub_segments repl segs ?s] =>
          destruct (IH s) as (new & Hnew & Hall);
          destruct (sub_segments repl segs s) as [[out|] st']
      end; cbn [snd trace] in *;
        (exists (trace (block_run repl m).2 ++ new);
         split; [by rewrite Hnew, app_assoc|by apply Forall_app]).
    + cbn [snd trace]. by eexists.
Qed.

(* Blocks that do not render leave the flag as it is, also when one of them
   raises. *)
Lemma sub_segments_flag_quiet fs vault fp segs st :
  existsb renders (blocks segs) = false ->
  changed (sub_segments (_process_block fs vault fp) segs st).2 = changed st.
Proof.
  revert st. induction segs as [|[c|m] segs IH]; intros st; [done|..].
  - intros Hq. cbn [sub_segments]. unfold_M. specialize (IH st Hq).
    by destruct (sub_segments _ segs st) as [[out|] st'].
  - cbn [blocks omap list_omap existsb]. intros [Hm Hq]%orb_false_elim.
    cbn [sub_segments]. unfold_M. rewrite process_block_frame.
    destruct (block_kept fs vault fp m Hm) as [-> _].
    rewrite orb_false_r.
    destruct (block_run _ m).1 as [r|]; [|done].
    match goal with
    | |- context [sub_segments _ segs ?s] =>
        specialize (IH s Hq);
        destruct (sub_segments _ segs s) as [[out|] st']
    end; done.
Qed.

(* The substitution of a text none of whose blocks renders: the text comes
   back as it was when every block returns, and an exception is raised
   otherwise; the flag is as it was and messages only are added. *)
Lemma quiet_document fs vault fp text st :
  existsb renders (blocks (scan text)) = false ->
  let repl := _process_block fs vault fp in
  let run := re_sub repl text st in
  changed run.2 = changed st
  /\ (exists msgs, trace run.2 = trace st ++ msgs /\ Forall is_log msgs)
  /\ (Forall (returns repl) (blocks (scan text)) -> run.1 = Return text)
  /\ (~ Forall (returns repl) (blocks (scan text)) -> run.1 = Raise).
Proof.
  intros Hquiet repl run. subst run. unfold re_sub.
  split; [by apply sub_segments_flag_quiet|]. split.
  { apply sub_segments_trace; [apply process_block_framed|].
    intros m. apply block_logs_only. }
  split.
  - intros Hall.
    rewrite sub_segments_returns by (done || apply process_block_framed).
    cbn [fst]. unfold repl. rewrite render_returned_quiet by done.
    by rewrite render_group0_scan.
  - apply sub_segments_Raise, process_block_framed.
Qed.

(* A turn of the loop on such a document leaves the file system as it
   was. *)
Lemma convert_file_quiet vault backup fp (w : world Path FS) text :
  read_text (disk w) fp = Return text ->
  existsb renders (blocks (scan text)) = false ->
  let turn := convert_file vault backup fp w in
  disk turn.2 = disk w
  /\ (exists msgs, output turn.2 = output w ++ msgs /\ Forall is_log msgs)
  /\ (Forall (returns (_process_block (disk w) vault fp))
             (blocks (scan text)) ->
      turn.1 = Return tt)
  /\ (~ Forall (returns (_process_block (disk w) vault fp))
               (blocks (scan text)) ->
      turn.1 = Raise).
Proof.
  intros Hread Hquiet turn. subst turn. unfold convert_file. rewrite Hread.
  destruct (quiet_document (disk w) vault fp text (PState false (output w))
              Hquiet)
    as (Hflag & (msgs & Hmsgs & Hlogs) & Hret & Hraise).
  cbn zeta in *. cbn [changed trace] in *.
  destruct (re_sub _ text _) as [[out|] st'] eqn:Hsub; cbn [fst snd] in *.
  - rewrite Hflag. cbn [fst snd disk output].
    split; [done|]. split; [by exists msgs|]. split; [done|].
    intros Hn. by specialize (Hraise Hn).
  - cbn [fst snd disk output].
    split; [done|]. split; [by exists msgs|]. split; [|done].
    intros Hall. by specialize (Hret Hall).
Qed.

(* --- A second pass ---------------------------------------------------- *)


(* --- A whole run ------------------------------------------------------ *)

(* An empty block is returned as it stands, and nothing is logged. *)
Lemma empty_block_is_kept fs vault fp m st :
  splitlines (strip (group1 m)) = [] ->
  _process_block fs vault fp m st = (Return (group0 m), st).
Proof. intros Hlines. unfold _process_block. by rewrite Hlines. Qed.

Lemma convert_file_Raise_output vault backup fp (w w' : world Path FS) :
  convert_file vault backup fp w = (Raise, w') ->
  exists new, output w' = output w ++ new /\ Forall is_log new.
Proof.
  unfold convert_file, re_sub. intros Hrun.
  destruct (read_text (disk w) fp) as [text|].
  2:{ injection Hrun as <-. exists []. by rewrite app_nil_r. }
  destruct (sub_segments_trace (_process_block (disk w) vault fp)
              (scan text) (PState false (output w)))
    as (new & Hnew & Hall);
    [apply process_block_framed|intros m; apply block_logs_only|].
  destruct (sub_segments _ _ _) as [[out|] st] eqn:Hsub.
  { by destruct (changed st). }
  injection Hrun as <-. by exists new.
Qed.

(* A text in which a block was rendered is not the text it was: a newline
   stands where the backtick of the opening stood. *)
Lemma rendered_text_differs fs vault fp text :
  Forall (returns (_process_block fs vault fp)) (blocks (scan text)) ->
  existsb renders (blocks (scan text)) = true ->
  render (returned (_process_block fs vault fp)) (scan text) <> text.
Proof.
  induction text as [|c s Hm IH|m rest Hm IH] using scan_ind; [done|..].
  - rewrite scan_cons_None by done. intros Hall Hex. rewrite render_Lit.
    intros [= Heq]. by apply IH.
  - rewrite scan_match by done. cbn [blocks omap list_omap existsb].
    intros [[r Hr] Hall]%Forall_cons Hex. rewrite render_Block.
    destruct (renders m) eqn:Hren.
    + unfold returned. rewrite Hr.
      destruct (block_rendered fs vault fp m r Hren Hr) as [_ [body ->]].
      apply match_here_Some in Hm as (Hop & _).
      destruct (group0 m ++ rest) as [|c s]; [done|].
      unfold istartswith in Hop.
      change opening with ("`"%char :: drop 1 opening) in Hop.
      cbn [starts_with_by] in Hop.
      apply andb_prop in Hop as [->%ieqc_backtick _]. done.
    + rewrite returned_kept by done. intros Heq%app_inv_head.
      by apply IH.
Qed.


(* One turn of the loop, seen from a document D that no block of its own
   makes render: what is written or copied is not D. *)
Lemma convert_file_frame vault backup fp (w w' : world Path FS) r D :
  (forall fs s, fp <> D -> read_text (write_text fs fp s) D = read_text fs D) ->
  (forall fs, read_text (copy2 fs fp (with_suffix_bak fp)) D
              = read_text fs D) ->
  (forall text, read_text (disk w) D = Return text ->
                existsb renders (blocks (scan text)) = false) ->
  convert_file vault backup fp w = (r, w') ->
  read_text (disk w') D = read_text (disk w) D
  /\ exists new,
       output w' = output w ++ new
       /\ forall c q, ~ In (Written D c) new /\ ~ In (Copied D q) new.
Proof.
  intros Hwrite Hcopy Hquiet Hrun.
  destruct r as [[]|].
  - apply convert_file_Return in Hrun as (text & Hread & _ & Hrun).
    cbn zeta in Hrun.
    pose proof (logs_are_logs (disk w) vault fp (blocks (scan text)))
      as Hlogs.
    destruct (existsb renders _) eqn:Hfp in Hrun; subst w'; cbn [disk output].
    + assert (fp <> D) as Hne.
      { intros ->. specialize (Hquiet text Hread). congruence. }
      split.
      { rewrite Hwrite by done. by destruct backup; rewrite ?Hcopy. }
      eexists. split; [by rewrite <- app_assoc|]. intros c q.
      rewrite !in_app_iff. split.
      * intros [Hin|[Hin|Hin]].
        -- by apply is_log_not_Written in Hin.
        -- destruct backup; [|done]. by destruct Hin as [|[|[]]].
        -- destruct Hin as [|[|[]]]; congruence.
      * intros [Hin|[Hin|Hin]].
        -- by apply is_log_not_Copied in Hin.
        -- destruct backup; [|done]. destruct Hin as [|[|[]]]; congruence.
        -- by destruct Hin as [|[|[]]].
    + split; [done|]. eexists. split; [done|]. intros c q.
      split; intros Hin.
      * by apply is_log_not_Written in Hin.
      * by apply is_log_not_Copied in Hin.
  - split; [by rewrite (convert_file_Raise _ _ _ _ _ Hrun)|].
    destruct (convert_file_Raise_output _ _ _ _ _ Hrun)
      as (new & Hnew & Hall).
    exists new. split; [done|]. intros c q. split; intros Hin.
    + by apply is_log_not_Written in Hin.
    + by apply is_log_not_Copied in Hin.
Qed.

(** X13: a document in which no block renders survives a whole run, also
    one that rewrites other documents or stops on an exception: at the end
    the file system holds for D what it held at the start, and no write and
    no backup of D is among the effects.  The two hypotheses say that the
    documents are distinct files and that no backup path is D. *)
Lemma unchanged_document_survives_run vault backup md_files D :
  (forall fs p s, In p md_files -> p <> D ->
                  read_text (write_text fs p s) D = read_text fs D) ->
  (forall fs p, In p md_files ->
                read_text (copy2 fs p (with_suffix_bak p)) D
                = read_text fs D) ->
  forall (w w' : world Path FS) r,
    (forall text, read_text (disk w) D = Return text ->
                  existsb renders (blocks (scan text)) = false) ->
    convert_files vault backup md_files w = (r, w') ->
    read_text (disk w') D = read_text (disk w) D
    /\ exists new,
         output w' = output w ++ new
         /\ forall c q, ~ In (Written D c) new /\ ~ In (Copied D q) new.
Proof.
  induction md_files as [|fp rest IH]; intros Hwrite Hcopy w w' r Hquiet Hrun.
  - injection Hrun as <- <-. split; [done|]. exists [].
    rewrite app_nil_r. split; [done|]. intros c q. split; intros [].
  - cbn [convert_files] in Hrun.
    destruct (convert_file vault backup fp w) as [r1 w1] eqn:Hstep.
    destruct (convert_file_frame vault backup fp w w1 r1 D)
      as (Hdisk & new1 & Hout1 & Hnew1); [| |done|done|].
    { intros fs s. apply Hwrite. by left. }
    { intros fs. apply Hcopy. by left. }
    destruct r1 as [[]|].
    + destruct (IH) with (w := w1) (w' := w') (r := r)
        as (Hdisk' & new2 & Hout2 & Hnew2); [| |by rewrite Hdisk|done|].
      { intros fs p s Hp. apply Hwrite. by right. }
      { intros fs p Hp. apply Hcopy. by right. }
      split; [congruence|]. exists (new1 ++ new2).
      split; [by rewrite Hout2, Hout1, app_assoc|].
      intros c q. rewrite !in_app_iff.
      destruct (Hnew1 c q), (Hnew2 c q). tauto.
    + injection Hrun as <- <-. split; [done|]. by exists new1.
Qed.

End Properties.

(* ===================================================================== *)
(* 9. The properties on the sample world                                  *)
(* ===================================================================== *)

Import Sample.

(* --- Reading the sample file system after a write ----------------------- *)

Lemma entry_of_set_file_ne (fs : sfs) (q q' : spath) (s : str) :
  q <> q' -> entry_of (set_file fs q s) q' = entry_of fs q'.
Proof.
  intros Hne. induction fs as [|[p n] fs IH]; cbn [set_file entry_of].
  - by rewrite bool_decide_false.
  - destruct (bool_decide (p = q)) eqn:Hpq; cbn [entry_of].
    + apply bool_decide_eq_true in Hpq as ->.
      by rewrite !bool_decide_false.
    + by rewrite IH.
Qed.


(* A path without ".." resolves to itself; for such paths a write is read
   back, and is not seen at another path. *)
Lemma read_after_write_other (fs : sfs) (p q : spath) (s : str) :
  (forall fs' : sfs, resolve_from fs' [] p = Some p) ->
  (forall fs' : sfs, resolve_from fs' [] q = Some q) ->
  p <> q ->
  sread_text (swrite_text fs p s) q = sread_text fs q.
Proof.
  intros Hp Hq Hne. unfold sread_text, swrite_text, lookup_path.
  rewrite Hp, !Hq. cbn. destruct q as [|c q]; [done|].
  cbn [entry]. by rewrite entry_of_set_file_ne.
Qed.


Lemma read_a_md_after_write (fs : sfs) (q : spath) (s : str) :
  q <> a_md -> sread_text (set_file fs q s) a_md = sread_text fs a_md.
Proof.
  intros Hne. unfold sread_text, lookup_path.
  assert (forall fs' : sfs, resolve_from fs' [] a_md = Some a_md) as Hres
    by (intros fs'; vm_compute; reflexivity).
  rewrite !Hres. cbn. by rewrite entry_of_set_file_ne.
Qed.

(* A copy to a path that is not a.md, nor a.md below it, leaves a.md. *)
Lemma read_after_copy_a_md (fs : sfs) (src dst : spath) :
  (forall fs' : sfs,
     resolve_from fs' [] dst = Some dst /\ dst <> a_md) ->
  (forall fs' : sfs,
     resolve_from fs' [] (dst ++ [name src]) = Some (dst ++ [name src])
     /\ dst ++ [name src] <> a_md) ->
  sread_text (scopy2 fs src dst) a_md = sread_text fs a_md.
Proof.
  intros Hdst Hsub. unfold scopy2.
  destruct (sread_text fs src) as [s|]; [|done].
  assert (forall fs' : sfs, resolve_from fs' [] a_md = Some a_md) as Ha
    by (intros fs'; vm_compute; reflexivity).
  destruct (is_dir_entry fs dst); apply read_after_write_other; try done.
  - intros fs'. apply Hsub.
  - apply (Hsub fs).
  - intros fs'. apply Hdst.
  - apply (Hdst fs).
Qed.

(* --- The properties on the sample world --------------------------------- *)




(** C4: the title of a header is returned as the loader built it, and a
    header that is no mapping is used as if it were one.  With the header
    title: 2024 the column name resolves to the int 2024; with the header
    title: and nothing after it, Title resolves to None; with the header 5
    any column that is no pseudo field raises, at col in fm; and the TABLE
    block over name of vault_year makes the run raise, at val.replace. *)
Theorem title_fallback_returns_non_string :
  _value_for_column header_2024 (lit "name") a_md [] = Return (PInt 2024)
  /\ _value_for_column (lit "---" ++ nl ++ lit "title:" ++ nl ++ lit "---")
       (lit "Title") a_md []
     = Return PNone
  /\ _value_for_column (lit "---" ++ nl ++ lit "5" ++ nl ++ lit "---")
       (lit "tags") a_md []
     = Raise
  /\ (convert_dataview_in_vault (Path := spath) [] false vault_year).1
     = Raise.
Proof. repeat split; by vm_compute. Qed.

(** C5: a FROM argument that is bad is not always put up with.  In
    vault_two the path a.md exists and is no directory; _gather_files
    globs that file, which yields nothing, where the vault root yields two
    documents, and the list b.md asks for is empty.  And for a name of 256
    characters, which names nothing, exists() raises and _gather_files
    with it. *)
Theorem existing_file_is_globbed_itself :
  sexists vault_two (sjoin [] (strip_quotes (lit "a.md"))) = Return true
  /\ sis_dir vault_two (sjoin [] (strip_quotes (lit "a.md"))) = Return false
  /\ _gather_files vault_two [] (Some (lit "a.md")) = Return []
  /\ srglob_md vault_two [] = [a_md; b_md]
  /\ sread_text
       (disk (convert_dataview_in_vault (Path := spath) [] false
                                        vault_two).2) b_md
     = Return (nl ++ nl)
  /\ lookup_path vault_two [long_name] = None
  /\ _gather_files vault_two [] (Some long_name) = Raise.
Proof. repeat split; by vm_compute. Qed.


(** C6, as stated, fails: the glob of vault_dir lists the directory d.md,
    which cannot be read, and the TABLE block of a.md, which has no column,
    raises instead of being returned as it stands. *)
Lemma columnless_table_reads_its_files :
  table_columns (re_split FROM (strip (lit "TABLE"))) = []
  /\ srglob_md vault_dir [] = [a_md; d_md]
  /\ sread_text vault_dir d_md = Raise
  /\ _process_block vault_dir [] a_md (block_of (lit "TABLE"))
                    (PState false [])
     = (Raise, PState false [])
  /\ (convert_dataview_in_vault (Path := spath) [] false vault_dir).1
     = Raise.
Proof. repeat split; by vm_compute. Qed.

(* A TABLE line that goes straight to FROM has no column; the files of
   vault_notes can be read. *)
Lemma table_without_columns_is_kept_witness :
  _process_block vault_notes [] a_md
    (block_of (lit "TABLE FROM " ++ [dquote] ++ lit "." ++ [dquote]))
    (PState false [])
  = (Return (fenced (lit "TABLE FROM " ++ [dquote] ++ lit "." ++ [dquote])),
     PState false []).
Proof.
  rewrite (table_without_columns_is_kept vault_notes [] a_md _ _
             (lit "TABLE FROM " ++ [dquote] ++ lit "." ++ [dquote]) []);
    vm_compute; reflexivity.
Defined.

(* A CALENDAR block is neither a TABLE nor a LIST. *)
Lemma unsupported_block_passes_through_witness :
  _process_block vault_notes [] a_md (block_of (lit "CALENDAR file.day"))
    (PState false [])
  = (Return (fenced (lit "CALENDAR file.day")),
     PState false [Logged (LogSkipped a_md)]).
Proof.
  rewrite (unsupported_block_passes_through vault_notes [] a_md _ _
             (lit "CALENDAR file.day") []);
    vm_compute; reflexivity.
Defined.

(* The TABLE block of notes/b.md: two columns, one row, three delimiters in
   the row although the value of tags holds a pipe. *)
Lemma table_block_shape_witness :
  exists rows,
    table_notes_text
    = nl ++ pipe_row [lit "title"; lit "tags"] ++ nl
      ++ pipe_row [lit "---"; lit "---"] ++ nl
      ++ join nl (map pipe_row rows) ++ nl
    /\ Forall2 (fun f row => unescaped_pipes (pipe_row row) = 3)
               [notes_b_md] rows.
Proof.
  destruct (table_block_shape vault_notes [] notes_b_md
              (block_of table_notes) (PState false []) table_notes []
              table_notes_text
              (PState true
                 [Logged (LogConvertedTable (Some (lit "notes"))
                            notes_b_md)]))
    as (files & rows & Hfiles & Hout & _ & Hrows).
  - vm_compute. reflexivity.
  - vm_compute. reflexivity.
  - vm_compute. discriminate.
  - vm_compute. reflexivity.
  - vm_compute in Hfiles. injection Hfiles as <-.
    exists rows. split; [exact Hout|].
    eapply Forall2_impl; [exact Hrows|].
    intros f row (text & _ & _ & Hrow). exact Hrow.
Defined.

(* The two blocks of two_blocks, the second one first. *)
Lemma blocks_order_independent_witness :
  (re_sub (_process_block vault_blocks [] a_md) two_blocks
          (PState false [])).1
  = (sub_in_order (_process_block vault_blocks [] a_md) two_blocks [1; 0]
                  (PState false [])).1.
Proof.
  apply (blocks_order_independent vault_blocks [] a_md two_blocks [1; 0]
           (PState false [])).
  vm_compute. apply perm_swap.
Defined.


(* notes/b.md is among the files its own block gathers from notes, and the
   text written to it holds the row of its own title and tags. *)
Lemma containing_document_is_scanned_witness :
  exists pre post,
    notes_b_text1 = pre ++ nl ++ lit "| A | x\|y |" ++ nl ++ post.
Proof.
  destruct (containing_document_is_scanned [] true notes_b_md
              (World vault_notes [])
              (convert_file [] true notes_b_md (World vault_notes [])).2
              notes_b_text (block_of table_notes) table_notes [])
    as (base & new_text & Hbase & _ & _ & Hwritten & Hline).
  - vm_compute. reflexivity.
  - vm_compute. reflexivity.
  - vm_compute. left. reflexivity.
  - vm_compute. reflexivity.
  - vm_compute. reflexivity.
  - vm_compute in Hbase. injection Hbase as <-.
    destruct Hline as (pre & post & line & Hnew & Hspec).
    { vm_compute. left. reflexivity. }
    vm_compute in Hwritten.
    destruct Hwritten as [Hw|[Hw|[Hw|[Hw|[Hw|[]]]]]]; try discriminate Hw.
    injection Hw as <-.
    assert (startswith (lit "TABLE") (upper (strip table_notes)) = true)
      as Htable by (vm_compute; reflexivity).
    rewrite Htable in Hspec. destruct Hspec as (vals & Hvals & ->).
    assert (table_columns (re_split FROM (strip table_notes))
            = [lit "title"; lit "tags"]) as Hcols
      by (vm_compute; reflexivity).
    rewrite Hcols in Hvals.
    apply Forall2_cons_inv_l in Hvals as (v1 & vals1 & H1 & Hvals & ->).
    apply Forall2_cons_inv_l in Hvals as (v2 & vals2 & H2 & Hvals & ->).
    apply Forall2_nil_inv_l in Hvals as ->.
    vm_compute in H1. injection H1 as <-.
    vm_compute in H2. injection H2 as <-.
    exists pre, post. exact Hnew.
Defined.

(* In a run over vault_notes, a.md, which holds no block, is neither written
   nor copied and reads at the end as at the start. *)
Lemma a_md_survives_run :
  sread_text
    (disk (convert_dataview_in_vault (Path := spath) [] true vault_notes).2)
    a_md
  = Return (lit "# A").
Proof.
  destruct (unchanged_document_survives_run [] true [a_md; notes_b_md] a_md)
    with (w := World vault_notes
                 [Logged (LogFound 2 ([] : spath))])
         (w' := (convert_dataview_in_vault (Path := spath) [] true
                   vault_notes).2)
         (r := (convert_dataview_in_vault (Path := spath) [] true
                   vault_notes).1)
    as [Hread _].
  - intros fs p s [<-|[<-|[]]] Hne; [done|].
    apply read_after_write_other; [| |done];
      intros fs'; vm_compute; reflexivity.
  - intros fs p Hp.
    destruct Hp as [<-|[<-|[]]]; apply read_after_copy_a_md; intros fs';
      split; vm_compute; (reflexivity || discriminate).
  - intros text Htext. vm_compute in Htext. injection Htext as <-.
    vm_compute. reflexivity.
  - by vm_compute.
  - etransitivity; [exact Hread|]. vm_compute. reflexivity.
Defined.

(* ===================================================================== *)
(* 10. Further properties of the converter                                *)
(* ===================================================================== *)

Section Documents.
Context {Path FS : Type} `{!PathLib Path, !FileSystem Path FS, !Runtime}.
Implicit Types (fs : FS) (vault fp : Path) (m : re_match).
Implicit Types (st : pstate Path).

Ltac unfold_monad :=
  unfold mbind, mret, M_bind, M_ret, lift, logger, set_changed;
  cbn [fst snd changed trace].
Tactic Notation "unfold_monad" "in" hyp(H) :=
  unfold mbind, mret, M_bind, M_ret, lift, logger, set_changed in H;
  cbn [fst snd changed trace] in H.

(* --- Documents without a query ---------------------------------------- *)

Lemma fence_free_tail c s : fence_free (c :: s) -> fence_free s.
Proof. apply (partition_None_suffix fence [c]). Qed.

Lemma fence_free_no_match s : fence_free s -> match_here s = None.
Proof.
  intros Hfree. unfold match_here.
  destruct (istartswith opening s) eqn:Hop; [|done]. exfalso.
  unfold istartswith in Hop.
  change opening with ("`"%char :: "`"%char :: "`"%char :: drop 3 opening)
    in Hop.
  destruct s as [|a [|b [|c s]]]; cbn [starts_with_by] in Hop;
    try done; try (by destruct (ieqc "`" a)).
  - by destruct (ieqc "`" a), (ieqc "`" b).
  - apply andb_prop in Hop as [->%ieqc_backtick Hop].
    apply andb_prop in Hop as [->%ieqc_backtick Hop].
    apply andb_prop in Hop as [->%ieqc_backtick Hop].
    by vm_compute in Hfree.
Qed.

Lemma scan_no_fence s : fence_free s -> scan s = map Lit s.
Proof.
  induction s as [|c s IH]; [done|]. intros Hfree.
  rewrite scan_cons_None by by apply fence_free_no_match.
  cbn. f_equal. apply IH. by eapply fence_free_tail.
Qed.

Lemma sub_segments_Lit (repl : re_match -> M Path str) (s : str) st :
  sub_segments repl (map Lit s) st = (Return s, st).
Proof.
  induction s as [|c s IH]; [done|]. cbn [map sub_segments]. unfold_monad.
  by rewrite IH.
Qed.

(** X1: a text that holds no three backticks in a row has no match of
    DATABLOCK_RE: re.sub returns it as it is and never calls the
    replacement function, whatever that function is. *)
Theorem text_without_fence_is_untouched (repl : re_match -> M Path str)
    text st :
  fence_free text -> re_sub repl text st = (Return text, st).
Proof.
  intros Hfree. unfold re_sub. rewrite scan_no_fence by done.
  apply sub_segments_Lit.
Qed.

Lemma render_ext g h segs :
  Forall (fun m => g m = h m) (blocks segs) -> render g segs = render h segs.
Proof.
  induction segs as [|[c|m] segs IH]; [done|..]; cbn [blocks omap list_omap].
  - intros Hall. rewrite !render_Lit. f_equal. by apply IH.
  - intros [Hm Hall]%Forall_cons. rewrite !render_Block, Hm. f_equal.
    by apply IH.
Qed.

Lemma existsb_false_Forall {A} (f : A -> bool) (l : list A) :
  existsb f l = false -> Forall (fun x => f x = false) l.
Proof.
  induction l as [|x l IH]; [constructor|]. cbn.
  intros [Hx Hl]%orb_false_elim. constructor; [done|by apply IH].
Qed.

(* The substitution of a document none of whose blocks renders. *)
Lemma block_without_files_returns fs vault fp m :
  reads_files m = false -> returns (_process_block fs vault fp) m.
Proof.
  unfold reads_files, returns, block_run, _process_block.
  destruct (splitlines (strip (group1 m))) as [|line0 rest];
    [by eexists|].
  intros [-> ->]%orb_false_elim. by eexists.
Qed.

(** X2: when no block of a document renders (each is empty, of an
    unsupported kind, or a TABLE without columns), re.sub leaves the changed
    flag as it was and adds log messages only, whether it returns or
    raises.  It returns the whole text of the document as it was when
    every block returns, and raises otherwise; and every block returns,
    whatever the file system holds, when none of them is a TABLE block (a
    TABLE block without columns still reads its files). *)
Theorem document_without_rendering_block_is_verbatim fs vault fp text st :
  existsb renders (blocks (scan text)) = false ->
  let repl := _process_block fs vault fp in
  let run := re_sub repl text st in
  changed run.2 = changed st
  /\ (exists msgs, trace run.2 = trace st ++ msgs /\ Forall is_log msgs)
  /\ (Forall (returns repl) (blocks (scan text)) -> run.1 = Return text)
  /\ (~ Forall (returns repl) (blocks (scan text)) -> run.1 = Raise)
  /\ (existsb reads_files (blocks (scan text)) = false ->
      run.1 = Return text).
Proof.
  intros Hquiet repl run.
  destruct (quiet_document fs vault fp text st Hquiet)
    as (Hflag & Hlogs & Hret & Hraise).
  split; [done|]. split; [done|]. split; [done|]. split; [done|].
  intros Hfiles%existsb_false_Forall. apply Hret.
  eapply Forall_impl; [exact Hfiles|]. intros m.
  apply block_without_files_returns.
Qed.

(** X19: when the substitution of a document returns, three things
    coincide: some block of the document renders, the changed flag is
    raised by the pass, and the text returned is not the text of the
    document.  So a document is rewritten only with a text that differs
    from the one it had, and a text that was changed is always written. *)
Theorem text_changes_iff_block_renders fs vault fp text st out st' :
  re_sub (_process_block fs vault fp) text st = (Return out, st') ->
  changed st' = changed st || existsb renders (blocks (scan text))
  /\ (out <> text <-> existsb renders (blocks (scan text)) = true).
Proof.
  unfold re_sub. intros Hrun. pose proof Hrun as Hall.
  apply sub_segments_Return_inv in Hall; [|apply process_block_framed].
  rewrite sub_segments_returns in Hrun
    by (done || apply process_block_framed).
  injection Hrun as <- <-. cbn [changed].
  rewrite flags_renders by done. split; [done|].
  destruct (existsb renders (blocks (scan text))) eqn:Hex.
  - split; [done|]. intros _. by apply rendered_text_differs.
  - split; [|done]. intros Hne. destruct Hne.
    rewrite render_returned_quiet by done. apply render_group0_scan.
Qed.

(* A run of the loop over documents of that kind. *)
Lemma convert_files_quiet vault backup md_files (w : world Path FS) :
  Forall (fun fp =>
            forall text, read_text (disk w) fp = Return text ->
                         existsb renders (blocks (scan text)) = false)
         md_files ->
  let run := convert_files vault backup md_files w in
  disk run.2 = disk w
  /\ (exists msgs, output run.2 = output w ++ msgs /\ Forall is_log msgs)
  /\ (Forall (fun fp =>
                exists text,
                  read_text (disk w) fp = Return text
                  /\ Forall (returns (_process_block (disk w) vault fp))
                            (blocks (scan text)))
             md_files ->
      run.1 = Return tt).
Proof.
  revert w. induction md_files as [|fp rest IH]; intros w Hall.
  { split; [done|]. split; [|done]. exists []. by rewrite app_nil_r. }
  apply Forall_cons in Hall as [Hfp Hrest]. cbn [convert_files].
  destruct (read_text (disk w) fp) as [text|] eqn:Hread.
  - destruct (convert_file_quiet vault backup fp w text Hread (Hfp _ eq_refl))
      as (Hdisk & (msgs & Hmsgs & Hlogs) & Hret & _).
    destruct (convert_file vault backup fp w) as [[[]|] w1];
      cbn [fst snd] in *.
    + rewrite <- Hdisk in Hrest. specialize (IH w1 Hrest).
      destruct IH as (Hdisk' & (msgs' & Hmsgs' & Hlogs') & Hret').
      cbn zeta. split; [congruence|]. split.
      { exists (msgs ++ msgs'). split; [|by apply Forall_app].
        by rewrite Hmsgs', Hmsgs, app_assoc. }
      intros [_ Hok]%Forall_cons. apply Hret'. by rewrite Hdisk.
    + cbn zeta. cbn [fst snd]. split; [done|]. split; [by exists msgs|].
      intros [(text' & Hread' & Hok) _]%Forall_cons.
      rewrite Hread in Hread'. injection Hread' as <-.
      by specialize (Hret Hok).
  - unfold convert_file. rewrite Hread. cbn zeta. cbn [fst snd].
    split; [done|]. split; [exists []; by rewrite app_nil_r|].
    intros [(text' & Hread' & _) _]%Forall_cons. congruence.
Qed.

(** X3: a run over a vault in which no document that can be read holds a
    block that renders leaves the file system exactly as it was (no
    document rewritten, no backup made) and outputs log messages only,
    whether it returns or raises.  It returns when the vault exists, every
    document can be read and every block returns. *)
Theorem vault_without_queries_is_untouched vault backup fs :
  Forall (fun fp =>
            forall text, read_text fs fp = Return text ->
                         existsb renders (blocks (scan text)) = false)
         (rglob_md fs vault) ->
  let run := convert_dataview_in_vault vault backup fs in
  disk run.2 = fs
  /\ Forall is_log (output run.2)
  /\ (exists_ fs vault = Return true ->
      Forall (fun fp =>
                exists text,
                  read_text fs fp = Return text
                  /\ Forall (returns (_process_block fs vault fp))
                            (blocks (scan text)))
             (rglob_md fs vault) ->
      run.1 = Return tt).
Proof.
  intros Hall run. subst run. unfold convert_dataview_in_vault.
  destruct (exists_ fs vault) as [[]|];
    [|by repeat split; try constructor..].
  destruct (convert_files_quiet vault backup (rglob_md fs vault)
              (World fs [Logged (LogFound (length (rglob_md fs vault))
                                          vault)]) Hall)
    as (Hdisk & (msgs & Hmsgs & Hlogs) & Hret).
  cbn zeta in *. cbn [disk output] in *.
  split; [done|]. split; [|by intros _].
  rewrite Hmsgs. by constructor.
Qed.

(* --- The effects of a run ---------------------------------------------- *)

Lemma is_log_confined backup md_files (l : list (io_action Path)) :
  Forall is_log l -> Forall (confined backup md_files) l.
Proof.
  intros Hl. eapply Forall_impl; [exact Hl|]. by intros [e|p q|p c].
Qed.

Lemma confined_mono backup md_files md_files' (a : io_action Path) :
  (forall p, In p md_files -> In p md_files') ->
  confined backup md_files a -> confined backup md_files' a.
Proof.
  intros Hsub. destruct a as [e|p q|p c]; cbn; [done| |by apply Hsub].
  intros (Hp & Hq & Hb). split; [by apply Hsub|done].
Qed.

Lemma convert_file_confined vault backup fp (w : world Path FS) :
  exists new,
    output (convert_file vault backup fp w).2 = output w ++ new
    /\ Forall (confined backup [fp]) new.
Proof.
  destruct (convert_file vault backup fp w) as [[[]|] w'] eqn:Hrun.
  - apply convert_file_Return in Hrun as (text & _ & _ & Hrun).
    cbn zeta in Hrun.
    pose proof (logs_are_logs (disk w) vault fp (blocks (scan text)))
      as Hlogs.
    destruct (existsb renders _); subst w'; cbn [snd output].
    + eexists. split; [by rewrite <- app_assoc|].
      apply Forall_app. split; [by apply is_log_confined|].
      apply Forall_app. split.
      * destruct backup; repeat constructor.
      * repeat constructor.
    + eexists. split; [done|]. by apply is_log_confined.
  - destruct (convert_file_Raise_output _ _ _ _ _ Hrun) as (new & Hnew & Hall).
    exists new. split; [done|]. by apply is_log_confined.
Qed.

Lemma convert_files_confined vault backup md_files (w : world Path FS) :
  exists new,
    output (convert_files vault backup md_files w).2 = output w ++ new
    /\ Forall (confined backup md_files) new.
Proof.
  revert w. induction md_files as [|fp rest IH]; intros w.
  - exists []. by rewrite app_nil_r.
  - cbn [convert_files].
    destruct (convert_file_confined vault backup fp w)
      as (new1 & Hout1 & Hnew1).
    assert (Forall (confined backup (fp :: rest)) new1) as Hnew1'.
    { eapply Forall_impl; [exact Hnew1|]. intros a. apply confined_mono.
      intros p [->|[]]. by left. }
    destruct (convert_file vault backup fp w) as [[[]|] w1]; cbn [snd] in *.
    + destruct (IH w1) as (new2 & Hout2 & Hnew2).
      exists (new1 ++ new2). split; [by rewrite Hout2, Hout1, app_assoc|].
      apply Forall_app. split; [done|].
      eapply Forall_impl; [exact Hnew2|]. intros a. apply confined_mono.
      intros p Hp. by right.
    + by exists new1.
Qed.

(** X4: a run over a vault that does not exist, or whose existence cannot
    be told, raises at once, with no effect.  Otherwise its output starts
    with the message that counts the documents, and every effect after it
    is a log message, the write of one of the documents the first scan
    listed, or, only when backup is set, the copy of one of them to its own
    backup path: no other file is written. *)
Theorem run_effects_are_confined vault backup fs :
  match exists_ fs vault with
  | Return true =>
      exists new,
        output (convert_dataview_in_vault vault backup fs).2
        = Logged (LogFound (length (rglob_md fs vault)) vault) :: new
        /\ Forall (confined backup (rglob_md fs vault)) new
  | _ => convert_dataview_in_vault vault backup fs = (Raise, World fs [])
  end.
Proof.
  unfold convert_dataview_in_vault.
  destruct (exists_ fs vault) as [[]|]; [|done..].
  destruct (convert_files_confined vault backup (rglob_md fs vault)
              (World fs [Logged (LogFound (length (rglob_md fs vault))
                                          vault)]))
    as (new & Hout & Hnew).
  by exists new.
Qed.

(** X5: in a turn of the loop that rewrites a document with backup set, the
    copy is made before the write: the effects are the messages of the
    blocks, then the copy, its message, the write and its message; and, the
    copy putting at the backup path what the document held and the write of
    the document leaving the backup path alone, the backup reads afterwards
    as the document did before the turn. *)
Theorem backup_is_taken_before_the_write vault fp (w w' : world Path FS)
    text :
  convert_file vault true fp w = (Return tt, w') ->
  read_text (disk w) fp = Return text ->
  existsb renders (blocks (scan text)) = true ->
  let bak := with_suffix_bak fp in
  read_text (copy2 (disk w) fp bak) bak = read_text (disk w) fp ->
  (forall fs s, read_text (write_text fs fp s) bak = read_text fs bak) ->
  read_text (disk w') bak = read_text (disk w) fp
  /\ exists msgs new_text,
       Forall is_log msgs
       /\ output w'
          = output w ++ msgs
            ++ [Copied fp bak; Logged (LogBackup bak);
                Written fp new_text; Logged (LogUpdated fp)].
Proof.
  intros (text' & Hread' & _ & Hrun)%convert_file_Return Hread Hsub bak
         Hcopy Hwrite.
  rewrite Hread in Hread'. injection Hread' as <-. cbn zeta in Hrun.
  rewrite Hsub in Hrun. subst w'. cbn [disk output]. fold bak.
  split; [by rewrite Hwrite|].
  eexists _, _. split; [apply logs_are_logs|]. by rewrite <- !app_assoc.
Qed.


(* --- Trimming ----------------------------------------------------------- *)

Lemma lstrip_by_idem f s : lstrip_by f (lstrip_by f s) = lstrip_by f s.
Proof.
  induction s as [|c s IH]; [done|]. cbn. destruct (f c) eqn:Hc; [done|].
  cbn. by rewrite Hc.
Qed.

Lemma lstrip_by_snoc f y c :
  f c = false -> lstrip_by f (y ++ [c]) = lstrip_by f y ++ [c].
Proof.
  intros Hc. induction y as [|d y IH]; cbn; [by rewrite Hc|].
  by destruct (f d).
Qed.

Lemma lstrip_by_length f s : length (lstrip_by f s) <= length s.
Proof. induction s as [|c s IH]; cbn; [lia|]. destruct (f c); cbn; lia. Qed.

Lemma lstrip_by_head f c s : lstrip_by f (c :: s) = c :: s -> f c = false.
Proof.
  cbn. destruct (f c); [|done]. intros Heq.
  pose proof (lstrip_by_length f s) as Hlen. rewrite Heq in Hlen.
  cbn in Hlen. lia.
Qed.

(* Trimming on the right gives no new character to trim on the left. *)
Lemma lstrip_by_rstrip_by f x :
  lstrip_by f x = x -> lstrip_by f (rstrip_by f x) = rstrip_by f x.
Proof.
  unfold rstrip_by. destruct x as [|c x]; [done|].
  intros Hc%lstrip_by_head. cbn [rev].
  rewrite lstrip_by_snoc, rev_unit by done. cbn. by rewrite Hc.
Qed.

Lemma strip_by_idem f s : strip_by f (strip_by f s) = strip_by f s.
Proof.
  unfold strip_by.
  rewrite (lstrip_by_rstrip_by f (lstrip_by f s)) by apply lstrip_by_idem.
  unfold rstrip_by. by rewrite rev_involutive, lstrip_by_idem.
Qed.

Lemma strip_idem s : strip (strip s) = strip s.
Proof. apply strip_by_idem. Qed.

Lemma lstrip_by_In f (a : ascii) s : In a (lstrip_by f s) -> In a s.
Proof.
  induction s as [|c s IH]; [done|]. cbn. destruct (f c); [|done].
  intros Hin. right. by apply IH.
Qed.

Lemma strip_by_In f (a : ascii) s : In a (strip_by f s) -> In a s.
Proof.
  unfold strip_by, rstrip_by. intros Hin%in_rev%lstrip_by_In%in_rev.
  by apply lstrip_by_In in Hin.
Qed.

Lemma lstrip_by_all f s :
  Forall (fun c => f c = true) s -> lstrip_by f s = [].
Proof. induction 1 as [|c s Hc _ IH]; [done|]. cbn. by rewrite Hc. Qed.

(* --- _extract_inline_kv -------------------------------------------------- *)

Lemma inline_fold_lookup (lines : list str) (res : gmap str str) (k : str) :
  foldl (fun res line =>
           match partition (lit "::") line with
           | Some (key, val) => <[strip key := strip val]> res
           | None => res
           end) res lines !! k
  = match last (filter (fun kv => kv.1 = k)
                  (omap (fun line =>
                           match partition (lit "::") line with
                           | Some (key, val) => Some (strip key, strip val)
                           | None => None
                           end) lines)) with
    | Some kv => Some kv.2
    | None => res !! k
    end.
Proof.
  revert res. induction lines as [|line lines IH]; intros res; [done|].
  cbn [foldl omap list_omap]. rewrite IH.
  destruct (partition (lit "::") line) as [[key val]|]; [|done].
  rewrite filter_cons. cbn [fst].
  destruct (decide (strip key = k)) as [<-|Hne].
  - rewrite last_cons. destruct (last _); [done|].
    by rewrite lookup_insert_eq.
  - destruct (last _); [done|]. by rewrite lookup_insert_ne.
Qed.

(** X7: the inline map gives, for a key, the value of the last line of the
    text that holds the separator "::" and whose trimmed left side is the
    key: a later line overrides an earlier one, and a key no line names is
    absent. *)
Theorem inline_lookup_is_last_line text k :
  _extract_inline_kv text !! k
  = snd <$> last (filter (fun kv => kv.1 = k) (inline_pairs text)).
Proof.
  unfold _extract_inline_kv, inline_pairs. rewrite inline_fold_lookup.
  by destruct (last _).
Qed.

(** X8: every key and every value of the inline map is trimmed: trimming it
    again changes nothing, so that a key with white space around it is never
    found. *)
Theorem inline_map_is_trimmed text :
  map_Forall (fun k v => strip k = k /\ strip v = v)
             (_extract_inline_kv text).
Proof.
  unfold _extract_inline_kv.
  assert (forall lines (res : gmap str str),
            map_Forall (fun k v => strip k = k /\ strip v = v) res ->
            map_Forall (fun k v => strip k = k /\ strip v = v)
              (foldl (fun res line =>
                        match partition (lit "::") line with
                        | Some (key, val) => <[strip key := strip val]> res
                        | None => res
                        end) res lines)) as Hfold.
  { induction lines as [|line lines IH]; intros res Hres; [done|].
    cbn [foldl]. apply IH.
    destruct (partition (lit "::") line) as [[key val]|]; [|done].
    apply map_Forall_insert_2; [|done]. by rewrite !strip_idem. }
  apply Hfold, map_Forall_empty.
Qed.

(* --- _extract_frontmatter ------------------------------------------------- *)

(* The first occurrence of sep = pre ++ [z] in g ++ sep ++ r is the one after
   g when none begins within g. *)
Lemma partition_after_free pre z g r :
  partition (pre ++ [z]) (g ++ pre) = None ->
  partition (pre ++ [z]) (g ++ (pre ++ [z]) ++ r) = Some (g, r).
Proof.
  set (sep := pre ++ [z]). induction g as [|c g IH]; intros Hfree.
  - cbn [app].
    assert (partition sep (sep ++ r)
            = Some ([], drop (length sep) (sep ++ r))) as ->.
    { destruct sep as [|a sep'] eqn:Hsep; [by destruct pre|].
      cbn [app partition].
      change (startswith (a :: sep') (a :: sep' ++ r))
        with (startswith (a :: sep') ((a :: sep') ++ r)).
      by rewrite startswith_app. }
    by rewrite drop_app_length.
  - assert (startswith sep (c :: g ++ sep ++ r)
            = startswith sep (c :: g ++ pre)) as Hsw.
    { unfold sep at 2. rewrite <- (app_assoc pre), (app_assoc g).
      rewrite <- (app_nil_r (c :: g ++ pre)), !app_comm_cons.
      apply starts_with_by_app. unfold sep. cbn.
      rewrite !length_app. cbn. lia. }
    cbn [app partition] in *. rewrite Hsw.
    destruct (startswith sep (c :: g ++ pre)); [done|].
    destruct (partition sep (g ++ pre)) as [[]|]; [done|].
    by rewrite IH.
Qed.

(** X9: the header handed to the loader is the text between the leading
    marker and the first marker after it, whatever follows: for a text
    --- y --- rest in which no marker begins within y, the result is what
    the loader builds for y when that is truthy, and the empty mapping when
    it is falsy or the loader fails. *)
Theorem frontmatter_ends_at_second_marker y rest :
  partition (lit "---") (y ++ lit "--") = None ->
  _extract_frontmatter (lit "---" ++ y ++ lit "---" ++ rest)
  = match safe_load y with
    | Some data => if truthy data then data else PDict []
    | None => PDict []
    end.
Proof.
  intros Hfree.
  pose proof (partition_after_free (lit "--") "-" y rest Hfree) as Hp.
  change (lit "--" ++ ["-"%char]) with (lit "---") in Hp.
  unfold _extract_frontmatter.
  change (startswith (lit "---") (lit "---" ++ y ++ lit "---" ++ rest))
    with true.
  change (drop 3 (lit "---" ++ y ++ lit "---" ++ rest))
    with (y ++ lit "---" ++ rest).
  by rewrite Hp.
Qed.

(* --- The columns of a TABLE line ------------------------------------------ *)

Lemma split_from_no_sep ch cur s :
  ~ In ch cur -> Forall (fun p => ~ In ch p) (split_from ch cur s).
Proof.
  revert cur. induction s as [|c s IH]; intros cur Hcur; cbn [split_from].
  - constructor; [|constructor]. by intros Hin%in_rev.
  - destruct (eqc c ch) eqn:Hc.
    + constructor; [by intros Hin%in_rev|]. apply IH. intros [].
    + apply IH. intros [->|Hin]; [|done].
      assert (eqc ch ch = true) as Heq by by apply eqc_eq. congruence.
Qed.

(** X10: every column name parsed from a TABLE line is not empty, is trimmed
    and holds no comma. *)
Theorem table_columns_are_clean parts :
  Forall clean_column (table_columns parts).
Proof.
  unfold table_columns. apply Forall_forall. intros c Hc.
  apply list_elem_of_filter in Hc as [Hne Hc].
  apply list_elem_of_In, in_map_iff in Hc as (p & <- & Hp).
  split; [by destruct (strip p)|]. split; [apply strip_idem|].
  intros Hin%strip_by_In.
  pose proof (split_from_no_sep "," [] (strip (drop 5 (strip (hd [] parts))))
                (fun H => H)) as Hall.
  rewrite Forall_forall in Hall. apply (Hall p); [|done].
  by apply list_elem_of_In.
Qed.

(* --- Blocks ----------------------------------------------------------------- *)

(** X11: a block whose body is white space only is returned as it stands:
    nothing is gathered or read, nothing is logged and the changed flag is
    not touched. *)
Theorem blank_block_is_kept fs vault fp m st :
  Forall (fun c => is_space c = true) (inner m) ->
  _process_block fs vault fp m st = (Return (group0 m), st).
Proof.
  intros Hblank. unfold _process_block, group1, strip, strip_by.
  by rewrite lstrip_by_all.
Qed.

Lemma starts_with_by_take eq p s :
  starts_with_by eq p s = true ->
  starts_with_by eq p (take (length p) s) = true.
Proof.
  revert s. induction p as [|a p IH]; intros [|b s]; cbn; try done.
  intros [-> Hp]%andb_prop. by apply IH.
Qed.

(** X12: every match of DATABLOCK_RE in a text starts with the opening
    marker in some letter case, and its body ends at the first closing fence
    that follows the opening: a match never holds a fence inside its
    body. *)
Theorem scan_blocks_are_well_matched s :
  Forall well_matched (blocks (scan s)).
Proof.
  induction s as [|c s Hm IH|m rest Hm IH] using scan_ind; [constructor|..].
  - by rewrite scan_cons_None.
  - rewrite scan_match by done. cbn [blocks omap list_omap].
    constructor; [|done]. pose proof (opener_length _ _ Hm) as Hlen.
    apply match_here_Some in Hm as (Hop & Hopener & r & Hg & Heq).
    split; [|split; [done|]].
    + rewrite Hopener. by apply starts_with_by_take.
    + pose proof (partition_Some _ _ _ _ Hg) as Hdrop. rewrite Hdrop in Hg.
      rewrite <- (app_nil_r fence) at 2.
      by apply (partition_first fence (inner m) r).
Qed.

(* --- TABLE blocks ------------------------------------------------------------ *)

Lemma mapM_Return_Forall {A B} (f : A -> result B) (l : list A) :
  (exists k, mapM f l = Return k) <-> Forall (fun x => exists y, f x = Return y) l.
Proof.
  split.
  - intros [k Hk%mapM_Return_inv].
    induction Hk as [|x y l k Hxy _ IH]; constructor; [by exists y|done].
  - induction 1 as [|x l [y Hy] _ [k IH]]; [by exists []|].
    exists (y :: k). cbn. rewrite Hy. cbn. by rewrite IH.
Qed.

Lemma table_row_returns fs vault cols f :
  (exists row, table_row fs vault cols f = Return row)
  <-> exists text,
        read_text fs f = Return text
        /\ Forall (fun col =>
                     exists s, _value_for_column text col f vault
                               = Return (PStr s))
                  cols.
Proof.
  unfold table_row. destruct (read_text fs f) as [text|].
  2:{ split; [by intros [? ?]|by intros (? & ? & ?)]. }
  change (Return text ≫= ?k) with (k text). cbn beta.
  rewrite mapM_Return_Forall.
  assert (Forall (fun col =>
                    exists y,
                      (val ← _value_for_column text col f vault;
                       val ← py_replace_pipe val;
                       Return (if nonempty val then val else []))
                      = Return y) cols
          <-> Forall (fun col =>
                        exists s, _value_for_column text col f vault
                                  = Return (PStr s)) cols) as ->.
  { apply Forall_proper; [|done]. intros col.
    destruct (_value_for_column _ _ _ _) as [v|]; cbn.
    - destruct v; cbn; split; intros [? ?]; try done; by eexists.
    - split; by intros [? ?]. }
  split.
  - intros Hall. by exists text.
  - by intros (text' & [= <-] & Hall).
Qed.

(** X14: a TABLE block returns if and only if its files are gathered
    without an exception, every gathered file can be read and, for every
    file and every column, the resolved value is a str; otherwise it
    raises, and then nothing is logged and the changed flag is not
    touched. *)
Theorem table_block_returns_iff_strings fs vault fp m st line0 rest :
  splitlines (strip (group1 m)) = line0 :: rest ->
  startswith (lit "TABLE") (upper (strip line0)) = true ->
  let parts := re_split FROM (strip line0) in
  let cols := table_columns parts in
  let run := _process_block fs vault fp m st in
  ((exists out, run.1 = Return out)
   <-> exists files,
         _gather_files fs vault (from_clause parts) = Return files
         /\ Forall (fun f =>
                      exists text,
                        read_text fs f = Return text
                        /\ Forall (fun col =>
                                     exists s,
                                       _value_for_column text col f vault
                                       = Return (PStr s))
                                  cols)
                   files)
  /\ (run.1 = Raise -> run.2 = st).
Proof.
  intros Hlines Htable parts cols run. subst run.
  unfold _process_block. rewrite Hlines, Htable.
  fold parts. fold cols. unfold_monad.
  destruct (_gather_files fs vault (from_clause parts)) as [files|];
    cbn [fst snd].
  2:{ split; [|done]. split; [by intros [? ?]|by intros (? & ? & ?)]. }
  assert ((exists rows, mapM (table_row fs vault cols) files = Return rows)
          <-> Forall (fun f =>
                        exists text,
                          read_text fs f = Return text
                          /\ Forall (fun col =>
                                       exists s,
                                         _value_for_column text col f vault
                                         = Return (PStr s))
                                    cols)
                     files) as Hiff.
  { rewrite mapM_Return_Forall. apply Forall_proper; [|done].
    intros f. apply table_row_returns. }
  destruct (mapM (table_row fs vault cols) files) as [rows|];
    cbn [fst snd].
  - split; [|by destruct (nonempty cols)].
    split.
    + intros _. exists files. split; [done|]. apply Hiff. by eexists.
    + intros _. destruct (nonempty cols); by eexists.
  - split; [|done]. split; [by intros [? ?]|].
    intros (files' & [= <-] & Hall). apply Hiff in Hall as [? ?]. done.
Qed.

(* --- LIST blocks -------------------------------------------------------------- *)

(* Under the very name title a header that is a mapping gives a str. *)
Lemma title_column_is_str md_text f vault kvs :
  _extract_frontmatter md_text = PDict kvs ->
  exists s, _value_for_column md_text (lit "title") f vault = Return (PStr s).
Proof.
  intros Hfm. unfold _value_for_column.
  change (strip (lit "title")) with (lit "title").
  change (one_of ["file.name"; "file"]%string (lower (lit "title")))
    with false.
  change (one_of ["file.path"; "path"]%string (lower (lit "title")))
    with false.
  change (one_of ["title"; "name"]%string (lower (lit "title"))) with true.
  rewrite Hfm. unfold mbind, result_bind. cbn [py_in py_get py_getitem].
  destruct (dict_lookup (lit "title") kvs) as [v|] eqn:Hv;
    cbn [default from_option]; [by eexists|].
  destruct (_extract_inline_kv md_text !! lit "title"); by eexists.
Qed.

(** X15: a LIST block returns, and raises the changed flag and logs its
    message, whenever its files are gathered without an exception and each
    of them can be read, has a header that is a mapping (or none) and a
    path relative to the vault root: the title of a header, whatever the
    loader built for it, goes through str() on this path. *)
Theorem list_block_returns fs vault fp m st line0 rest files :
  splitlines (strip (group1 m)) = line0 :: rest ->
  startswith (lit "TABLE") (upper (strip line0)) = false ->
  startswith (lit "LIST") (upper (strip line0)) = true ->
  let from_path := from_clause (re_split FROM (strip line0)) in
  _gather_files fs vault from_path = Return files ->
  Forall (fun f =>
            (exists text kvs,
               read_text fs f = Return text
               /\ _extract_frontmatter text = PDict kvs)
            /\ exists rel, relative_to f vault = Return rel)
         files ->
  exists out,
    _process_block fs vault fp m st
    = (Return out,
       PState true (trace st ++ [Logged (LogConvertedList from_path fp)])).
Proof.
  intros Hlines Htable Hlist from_path Hfiles Hall.
  unfold _process_block. rewrite Hlines, Htable, Hlist. fold from_path.
  rewrite Hfiles. unfold_monad.
  assert (exists items, mapM (list_item fs vault) files = Return items)
    as [items ->].
  { apply mapM_Return_Forall. eapply Forall_impl; [exact Hall|].
    intros f [(text & kvs & Hread & Hfm) [rel Hrel]]. unfold list_item.
    rewrite Hread. unfold mbind, result_bind.
    destruct (title_column_is_str text f vault kvs Hfm) as [s ->].
    rewrite Hrel. by eexists. }
  by eexists.
Qed.

(** X16: the text a LIST block is replaced by is one line per gathered file,
    in the order of the glob, each a hyphen, a space and a link
    [title](path): the path is that of the file relative to the vault root
    and the title is the title resolved from the text read from the file,
    as str() gives it, or the stem of the file when the resolved title is
    falsy (empty, None, zero). *)
Theorem list_block_shape fs vault fp m st line0 rest out st' :
  splitlines (strip (group1 m)) = line0 :: rest ->
  startswith (lit "TABLE") (upper (strip line0)) = false ->
  startswith (lit "LIST") (upper (strip line0)) = true ->
  _process_block fs vault fp m st = (Return out, st') ->
  exists files items,
    _gather_files fs vault (from_clause (re_split FROM (strip line0)))
    = Return files
    /\ out = nl ++ join nl (map (fun it => lit "- " ++ it) items) ++ nl
    /\ Forall2
         (fun f item =>
            exists text v rel,
              read_text fs f = Return text
              /\ _value_for_column text (lit "title") f vault = Return v
              /\ relative_to f vault = Return rel
              /\ item = lit "[" ++ (if truthy v then py_str v else stem f)
                        ++ lit "](" ++ rel ++ lit ")")
         files items.
Proof.
  intros Hlines Htable Hlist Hrun.
  unfold _process_block in Hrun. rewrite Hlines, Htable, Hlist in Hrun.
  unfold_monad in Hrun.
  destruct (_gather_files fs vault _) as [files|];
    cbn [fst snd] in Hrun; [|done].
  destruct (mapM (list_item fs vault) files) as [items|] eqn:Hitems;
    cbn [fst snd] in Hrun; [|done].
  injection Hrun as <- _. exists files, items. split; [done|].
  split; [done|].
  apply mapM_Return_inv in Hitems. eapply Forall2_impl; [exact Hitems|].
  intros f item. unfold list_item, mbind, result_bind.
  destruct (read_text fs f) as [text|] eqn:Hread; [|done].
  destruct (_value_for_column _ _ _ _) as [v|] eqn:Hv; [|done].
  destruct (relative_to f vault) as [rel|] eqn:Hrel; [|done].
  intros [= <-]. by exists text, v, rel.
Qed.

(** X17: a block that renders is replaced even when no file is gathered: a
    LIST block by two newlines, a TABLE block by the header line, the
    separator line and an empty line; the changed flag is raised, so the
    document is rewritten without its query. *)
Theorem empty_scan_still_replaces fs vault fp m st line0 rest :
  splitlines (strip (group1 m)) = line0 :: rest ->
  renders m = true ->
  let parts := re_split FROM (strip line0) in
  let cols := table_columns parts in
  _gather_files fs vault (from_clause parts) = Return [] ->
  (_process_block fs vault fp m st).1
  = Return (if startswith (lit "TABLE") (upper (strip line0))
            then nl ++ pipe_row cols ++ nl
                 ++ pipe_row (replicate (length cols) (lit "---")) ++ nl
                 ++ nl
            else nl ++ nl)
  /\ changed (_process_block fs vault fp m st).2 = true.
Proof.
  intros Hlines Hrenders parts cols Hfiles.
  unfold renders in Hrenders. unfold _process_block.
  rewrite Hlines in *. fold parts in Hrenders |- *. fold cols in Hrenders |- *.
  rewrite Hfiles.
  destruct (startswith (lit "TABLE") (upper (strip line0))).
  - unfold_monad. by rewrite Hrenders.
  - rewrite Hrenders. by unfold_monad.
Qed.


(* --- What of a block is read ---------------------------------------------- *)

(** X18: of a block that renders, only the first line of the trimmed body is
    read: two such blocks with the same first line are replaced by the same
    text, with the same effects, whatever lines follow it (a WHERE, SORT or
    LIMIT line of the query is dropped without a message). *)
Theorem block_reads_first_line_only fs vault fp m m' st line0 rest rest' :
  splitlines (strip (group1 m)) = line0 :: rest ->
  splitlines (strip (group1 m')) = line0 :: rest' ->
  renders m = true ->
  _process_block fs vault fp m st = _process_block fs vault fp m' st.
Proof.
  intros Hm Hm' Hren. unfold renders in Hren. rewrite Hm in Hren.
  cbn zeta in Hren. unfold _process_block. rewrite Hm, Hm'. cbn zeta.
  destruct (startswith (lit "TABLE") (upper (strip line0))).
  - rewrite Hren. reflexivity.
  - rewrite Hren. reflexivity.
Qed.
End Documents.

(* ===================================================================== *)
(* 11. The further properties on the sample world                          *)
(* ===================================================================== *)

(* A document without any backtick. *)
Lemma text_without_fence_is_untouched_witness :
  re_sub (_process_block vault_notes [] a_md) (lit "# A") (PState false [])
  = (Return (lit "# A"), PState false []).
Proof.
  apply (text_without_fence_is_untouched (_process_block vault_notes [] a_md)
           (lit "# A") (PState false [])).
  vm_compute. reflexivity.
Defined.

(* The document calendar_text, whose one block is not supported, in a file
   system that holds a directory that cannot be read. *)
Lemma document_without_rendering_block_is_verbatim_witness :
  (re_sub (_process_block vault_dir [] a_md) calendar_text
          (PState false [])).1
  = Return calendar_text
  /\ changed (re_sub (_process_block vault_dir [] a_md) calendar_text
                      (PState false [])).2
     = false.
Proof.
  destruct (document_without_rendering_block_is_verbatim vault_dir [] a_md
              calendar_text (PState false []))
    as (Hflag & _ & _ & _ & Hret).
  - vm_compute. reflexivity.
  - split; [|exact Hflag]. apply Hret. vm_compute. reflexivity.
Defined.

Lemma vault_without_queries_is_untouched_witness :
  disk (convert_dataview_in_vault (Path := spath) [] true vault_calendar).2
  = vault_calendar
  /\ (convert_dataview_in_vault (Path := spath) [] true vault_calendar).1
     = Return tt.
Proof.
  destruct (vault_without_queries_is_untouched [] true vault_calendar)
    as (Hdisk & _ & Hret).
  - change (rglob_md vault_calendar ([] : spath)) with [a_md].
    constructor; [|constructor]. intros text Htext.
    vm_compute in Htext. injection Htext as <-. vm_compute. reflexivity.
  - split; [exact Hdisk|]. apply Hret; [vm_compute; reflexivity|].
    change (rglob_md vault_calendar ([] : spath)) with [a_md].
    constructor; [|constructor]. exists calendar_text.
    split; [vm_compute; reflexivity|].
    assert (blocks (scan calendar_text)
            = [block_of (lit "CALENDAR file.day")]) as ->
      by (vm_compute; reflexivity).
    constructor; [|constructor].
    exists (fenced (lit "CALENDAR file.day")). vm_compute. reflexivity.
Defined.

(* The pass over tick_text renders its LIST block. *)
Lemma text_changes_iff_block_renders_witness :
  changed (re_sub (_process_block vault_tick [] a_md) tick_text
                  (PState false [])).2
  = true.
Proof.
  destruct (text_changes_iff_block_renders vault_tick [] a_md tick_text
              (PState false []) tick_text1
              (re_sub (_process_block vault_tick [] a_md) tick_text
                      (PState false [])).2)
    as [Hflag _].
  - vm_compute. reflexivity.
  - rewrite Hflag. vm_compute. reflexivity.
Defined.

(* The turn of the loop for notes/b.md with backup set. *)
Lemma backup_is_taken_before_the_write_witness :
  sread_text
    (disk (convert_file [] true notes_b_md (World vault_notes [])).2)
    (sbak notes_b_md)
  = Return notes_b_text.
Proof.
  destruct (backup_is_taken_before_the_write [] notes_b_md
              (World vault_notes [])
              (convert_file [] true notes_b_md (World vault_notes [])).2
              notes_b_text)
    as [Hbak _].
  - vm_compute. reflexivity.
  - vm_compute. reflexivity.
  - vm_compute. reflexivity.
  - vm_compute. reflexivity.
  - intros fs s. apply read_after_write_other.
    + intros fs'. vm_compute. reflexivity.
    + intros fs'. vm_compute. reflexivity.
    + vm_compute. discriminate.
  - etransitivity; [exact Hbak|]. vm_compute. reflexivity.
Defined.


(* The header of notes/b.md. *)
Lemma frontmatter_ends_at_second_marker_witness :
  _extract_frontmatter (lit "---" ++ header_A_yaml ++ lit "---" ++ nl)
  = PDict [(PStr (lit "title"), PStr (lit "A"));
           (PStr (lit "tags"), PStr (lit "x|y"))].
Proof.
  rewrite (frontmatter_ends_at_second_marker header_A_yaml nl);
    vm_compute; reflexivity.
Defined.

(* A block of two spaces and a newline. *)
Lemma blank_block_is_kept_witness :
  _process_block vault_notes [] a_md
    (Match (lit "```dataview") (lit "  " ++ nl)) (PState false [])
  = (Return (lit "```dataview" ++ (lit "  " ++ nl) ++ fence),
     PState false []).
Proof.
  apply (blank_block_is_kept vault_notes [] a_md
           (Match (lit "```dataview") (lit "  " ++ nl)) (PState false [])).
  repeat constructor.
Defined.

(* The TABLE block of notes/b.md returns: its file is read and its two
   values are strs. *)
Lemma table_block_returns_iff_strings_witness :
  exists files,
    _gather_files vault_notes [] (Some (lit "notes")) = Return files
    /\ Forall (fun f =>
                 exists text,
                   sread_text vault_notes f = Return text
                   /\ Forall (fun col =>
                                exists s,
                                  _value_for_column text col f []
                                  = Return (PStr s))
                             [lit "title"; lit "tags"])
              files.
Proof.
  destruct (table_block_returns_iff_strings vault_notes [] notes_b_md
              (block_of table_notes) (PState false []) table_notes [])
    as [[Hstrings _] _].
  - vm_compute. reflexivity.
  - vm_compute. reflexivity.
  - apply Hstrings. exists table_notes_text. vm_compute. reflexivity.
Defined.

(* A LIST block over vault_notes. *)
Lemma list_block_returns_witness :
  exists out,
    _process_block vault_notes [] a_md (block_of (lit "LIST"))
                   (PState false [])
    = (Return out, PState true [Logged (LogConvertedList None a_md)]).
Proof.
  apply (list_block_returns vault_notes [] a_md (block_of (lit "LIST"))
           (PState false []) (lit "LIST") [] [a_md; notes_b_md]).
  - vm_compute. reflexivity.
  - vm_compute. reflexivity.
  - vm_compute. reflexivity.
  - vm_compute. reflexivity.
  - constructor; [|constructor; [|constructor]].
    + split; [exists (lit "# A"), []|exists (lit "a.md")];
        [split|]; vm_compute; reflexivity.
    + split; [exists notes_b_text,
                [(PStr (lit "title"), PStr (lit "A"));
                 (PStr (lit "tags"), PStr (lit "x|y"))]
             |exists (lit "notes/b.md")];
        [split|]; vm_compute; reflexivity.
Defined.

Lemma list_block_shape_witness :
  exists items,
    list_notes_text
    = nl ++ join nl (map (fun it => lit "- " ++ it) items) ++ nl
    /\ length items = 2.
Proof.
  destruct (list_block_shape vault_notes [] a_md (block_of (lit "LIST"))
              (PState false []) (lit "LIST") [] list_notes_text
              (PState true [Logged (LogConvertedList None a_md)]))
    as (files & items & Hfiles & Hout & Hitems).
  - vm_compute. reflexivity.
  - vm_compute. reflexivity.
  - vm_compute. reflexivity.
  - vm_compute. reflexivity.
  - vm_compute in Hfiles. injection Hfiles as <-.
    exists items. split; [exact Hout|].
    apply Forall2_length in Hitems. rewrite <- Hitems. reflexivity.
Defined.

(* The block of b.md in vault_two gathers no file. *)
Lemma empty_scan_still_replaces_witness :
  (_process_block vault_two [] b_md (block_of (lit "LIST FROM 'a.md'"))
                  (PState false [])).1
  = Return (nl ++ nl).
Proof.
  destruct (empty_scan_still_replaces vault_two [] b_md
              (block_of (lit "LIST FROM 'a.md'")) (PState false [])
              (lit "LIST FROM 'a.md'") [])
    as [Hout _].
  - vm_compute. reflexivity.
  - vm_compute. reflexivity.
  - vm_compute. reflexivity.
  - rewrite Hout. vm_compute. reflexivity.
Defined.

(* A LIST block with a WHERE line after the first. *)
Lemma block_reads_first_line_only_witness :
  _process_block vault_notes [] a_md
    (block_of (lit "LIST" ++ nl ++ lit "WHERE done")) (PState false [])
  = (Return list_notes_text,
     PState true [Logged (LogConvertedList None a_md)]).
Proof.
  rewrite <- (block_reads_first_line_only vault_notes [] a_md
                (block_of (lit "LIST"))
                (block_of (lit "LIST" ++ nl ++ lit "WHERE done"))
                (PState false []) (lit "LIST") [] [lit "WHERE done"]).
  - vm_compute. reflexivity.
  - vm_compute. reflexivity.
  - vm_compute. reflexivity.
  - vm_compute. reflexivity.
Defined.
